(** * molden_to_abins: a shallow embedding of the Molden-to-Abins converter

    The development follows [molden_to_abins.py] function by function.
    Text is modelled as [string] whose characters are code points below
    256; the input stream [fd] is the list of lines the file iterator
    yields.  Python exceptions are values of [exn] carried by [result].
    Dictionaries are association lists with Python's insertion-order
    semantics.  Floating-point numbers are kept behind the interface
    [FloatOps]: parsing, the literal [0.], multiplication and the two
    constants imported from [ase]. *)

From Stdlib Require Import List String Ascii ZArith Lia Bool Arith.
From Stdlib Require Import DecimalString DecimalZ Permutation.
Import ListNotations.
Open Scope string_scope.
Open Scope list_scope.

Set Implicit Arguments.

(** ** Exceptions and the error monad *)

Inductive exn : Type :=
| ValueError      (* bad header, bad unpacking, bad int()/float(), ragged array *)
| KeyError        (* dict[key] on an absent key *)
| AttributeError  (* None.append(...) *)
| IndexError      (* array index out of bounds *)
| TypeError.      (* iteration over None *)

Inductive result (A : Type) : Type :=
| Ok (a : A)
| Err (e : exn).
Arguments Ok {A} a.
Arguments Err {A} e.

Definition bind {A B} (r : result A) (k : A -> result B) : result B :=
  match r with
  | Ok a => k a
  | Err e => Err e
  end.

Notation "x <- r ;; k" := (bind r (fun x => k))
  (at level 61, r at next level, right associativity).
Notation "' p <- r ;; k" := (bind r (fun v => let p := v in k))
  (at level 61, p pattern, r at next level, right associativity).

Definition is_ok {A} (r : result A) : bool :=
  match r with Ok _ => true | Err _ => false end.

(** Left-to-right traversal that stops at the first exception, as a
    comprehension or [map] consumed by [list] does. *)
Fixpoint mapM {A B} (f : A -> result B) (l : list A) : result (list B) :=
  match l with
  | [] => Ok []
  | a :: l' => b <- f a ;; bs <- mapM f l' ;; Ok (b :: bs)
  end.

(** ** Characters and strings *)

Module Str.

Definition code (c : ascii) : N := N_of_ascii c.

Definition in_range (lo hi : N) (c : ascii) : bool :=
  (N.leb lo (code c) && N.leb (code c) hi)%bool.

(** [str.isspace] on code points below 256. *)
Definition isspace (c : ascii) : bool :=
  (in_range 9 13 c || in_range 28 32 c
   || N.eqb (code c) 133 || N.eqb (code c) 160)%bool.

Definition isdigit (c : ascii) : bool := in_range 48 57 c.

(** The class [\w] of the [re] module on code points below 256:
    alphanumeric characters and the underscore. *)
Definition isword (c : ascii) : bool :=
  (in_range 48 57 c || in_range 65 90 c || in_range 97 122 c
   || N.eqb (code c) 95
   || N.eqb (code c) 170 || N.eqb (code c) 178 || N.eqb (code c) 179
   || N.eqb (code c) 181 || N.eqb (code c) 185 || N.eqb (code c) 186
   || in_range 188 190 c
   || in_range 192 214 c || in_range 216 246 c || in_range 248 255 c)%bool.

Fixpoint lstrip (s : string) : string :=
  match s with
  | String c s' => if isspace c then lstrip s' else s
  | EmptyString => EmptyString
  end.

Fixpoint rstrip (s : string) : string :=
  match s with
  | String c s' =>
      match rstrip s' with
      | EmptyString => if isspace c then EmptyString else String c EmptyString
      | t => String c t
      end
  | EmptyString => EmptyString
  end.

(** [str.strip()] *)
Definition strip (s : string) : string := rstrip (lstrip s).

(** [str.split()]: maximal runs of non-whitespace characters.  [cur] is
    the current run, reversed. *)
Definition flush (cur : list ascii) (acc : list string) : list string :=
  match cur with
  | [] => acc
  | _ => string_of_list_ascii (rev cur) :: acc
  end.

Fixpoint split_aux (s : string) (cur : list ascii) : list string :=
  match s with
  | EmptyString => flush cur []
  | String c s' =>
      if isspace c then flush cur (split_aux s' [])
      else split_aux s' (c :: cur)
  end.

Definition split (s : string) : list string := split_aux s [].

(** [needle in s] *)
Fixpoint contains (needle s : string) : bool :=
  (prefix needle s ||
   match s with
   | EmptyString => false
   | String _ s' => contains needle s'
   end)%bool.

(** [str(n)] for an [int], as the f-string [{index - 1}] formats it. *)
Definition of_Z (n : Z) : string := NilZero.string_of_int (Z.to_int n).

End Str.

(** ** [int(token)]: optional sign, decimal digits, single underscores
    between digits, surrounding whitespace ignored. *)

Module PyInt.

Inductive prev := Start | Digit | Underscore.

Fixpoint digits (s : string) (p : prev) (acc : Z) : option Z :=
  match s with
  | EmptyString => match p with Digit => Some acc | _ => None end
  | String c s' =>
      if Str.isdigit c then
        digits s' Digit (10 * acc + Z.of_N (Str.code c - 48))
      else if Ascii.eqb c "_"%char then
        match p with
        | Digit => digits s' Underscore acc
        | _ => None
        end
      else None
  end.

Definition parse (s : string) : option Z :=
  match Str.strip s with
  | String "-"%char s' => option_map Z.opp (digits s' Start 0)
  | String "+"%char s' => digits s' Start 0
  | s' => digits s' Start 0
  end.

Definition int (s : string) : result Z :=
  match parse s with
  | Some z => Ok z
  | None => Err ValueError
  end.

End PyInt.

(** ** Dictionaries: insertion-ordered association lists *)

Module Dict.
Section Dict.
Variables K V : Type.
Variable eqb : K -> K -> bool.

Definition t := list (K * V).

Fixpoint get (d : t) (k : K) : option V :=
  match d with
  | [] => None
  | (k', v) :: d' => if eqb k k' then Some v else get d' k
  end.

(** [k in d] *)
Definition mem (d : t) (k : K) : bool :=
  match get d k with Some _ => true | None => false end.

(** [d[k]], raising [KeyError] *)
Definition lookup (d : t) (k : K) : result V :=
  match get d k with Some v => Ok v | None => Err KeyError end.

(** [d[k] = v]: an existing key keeps its position. *)
Fixpoint set (d : t) (k : K) (v : V) : t :=
  match d with
  | [] => [(k, v)]
  | (k', v') :: d' =>
      if eqb k k' then (k', v) :: d' else (k', v') :: set d' k v
  end.

Definition keys (d : t) : list K := map fst d.
Definition values (d : t) : list V := map snd d.
End Dict.
End Dict.

(** ** The floating-point interface

    [float_of_string] is Python's [float(token)], [fmul] is [*] on
    floats, [fzero] and [fone] are the literals [0.] and [1.], [Bohr] is
    [ase.units.Bohr] and [atomic_masses] is [ase.data.atomic_masses]. *)

Class FloatOps : Type := {
  F : Type;
  float_of_string : string -> option F;
  fzero : F;
  fone : F;
  fmul : F -> F -> F;
  Bohr : F;
  atomic_masses : list F
}.

(** ** The header pattern [\[[\w\-]+\]\s*(AU|Angs)?]

    [header_re.match] anchors at the start of the line only.  The tail
    [\s*(AU|Angs)?] matches the empty string, so a match exists exactly
    when the line starts with a bracketed, non-empty run of word
    characters and hyphens.  The closing bracket is outside the class,
    hence only the maximal run can be followed by it. *)

Module Re.

Definition in_class (c : ascii) : bool :=
  (Str.isword c || Ascii.eqb c "-"%char)%bool.

Fixpoint skip_class (s : string) : string :=
  match s with
  | String c s' => if in_class c then skip_class s' else s
  | EmptyString => EmptyString
  end.

Definition header_match (line : string) : bool :=
  match line with
  | String "["%char (String c s') =>
      if in_class c then
        match skip_class s' with
        | String "]"%char _ => true
        | _ => false
        end
      else false
  | _ => false
  end.

End Re.

(** ** [_check_first_line] *)

(** [fd.readline()]: the next line, or the empty string at end of file,
    together with the rest of the stream. *)
Definition readline (fd : list string) : string * list string :=
  match fd with
  | [] => ("", [])
  | l :: fd' => (l, fd')
  end.

Definition _check_first_line (fd : list string) : result (list string) :=
  let '(l, fd') := readline fd in
  if negb (String.eqb (Str.strip l) "[Molden Format]") then Err ValueError
  else Ok fd'.

(** ** [_read_blocks] *)

(** Keys of [raw_data] are header lines, or [None] when the stream had no
    header at all; a value is the block, or [None] in that same case. *)
Definition key : Type := option string.

Definition key_eqb (a b : key) : bool :=
  match a, b with
  | Some x, Some y => String.eqb x y
  | None, None => true
  | _, _ => false
  end.

Definition RawData : Type := Dict.t key (option (list string)).

Definition raw_get (d : RawData) (k : string) := Dict.get key_eqb d (Some k).
Definition raw_mem (d : RawData) (k : string) := Dict.mem key_eqb d (Some k).
Definition raw_lookup (d : RawData) (k : string) := Dict.lookup key_eqb d (Some k).

Record reader : Type := {
  raw_data : RawData;
  current_header : option string;
  current_block : option (list string)
}.

(** Truth value of [current_header]: [None] and the empty string are
    false. *)
Definition truthy (h : option string) : bool :=
  match h with
  | Some (String _ _) => true
  | _ => false
  end.

Definition commit (st : reader) : RawData :=
  Dict.set key_eqb (raw_data st) (current_header st) (current_block st).

Definition read_step (st : reader) (line : string) : result reader :=
  if Re.header_match line then
    Ok {| raw_data := if truthy (current_header st) then commit st
                      else raw_data st;
          current_header := Some line;
          current_block := Some [] |}
  else
    match current_block st with
    | Some b =>
        Ok {| raw_data := raw_data st;
              current_header := current_header st;
              current_block := Some (b ++ [line]) |}
    | None => Err AttributeError
    end.

Fixpoint read_loop (st : reader) (lines : list string) : result reader :=
  match lines with
  | [] => Ok st
  | line :: lines' => st' <- read_step st line ;; read_loop st' lines'
  end.

Definition reader_init : reader :=
  {| raw_data := []; current_header := None; current_block := None |}.

Definition _read_blocks (fd : list string) : result RawData :=
  st <- read_loop reader_init (map Str.strip fd) ;;
  Ok (commit st).

(** ** Records of the output

    The records are parametrised by the type of numbers. *)

Record AtomData (X : Type) : Type := {
  coord : list X;
  mass : X;
  sort : Z;
  symbol : string
}.
Arguments coord {X} _.
Arguments mass {X} _.
Arguments sort {X} _.
Arguments symbol {X} _.

Record KPointsData (X : Type) : Type := {
  frequencies : list (list X);
  atomic_displacements : list (list (list (list X)));
  weights : list X;
  k_vectors : list (list X);
  unit_cell : list (list X)
}.
Arguments frequencies {X} _.
Arguments atomic_displacements {X} _.
Arguments weights {X} _.
Arguments k_vectors {X} _.
Arguments unit_cell {X} _.

Record OutputData (X : Type) : Type := {
  k_points_data : KPointsData X;
  atoms_data : Dict.t string (AtomData X);
  abins_class : string;
  mantid_version : string
}.
Arguments k_points_data {X} _.
Arguments atoms_data {X} _.
Arguments abins_class {X} _.
Arguments mantid_version {X} _.

Section Program.
Context {FO : FloatOps}.

Definition float (s : string) : result F :=
  match float_of_string s with
  | Some x => Ok x
  | None => Err ValueError
  end.

(** Iterating over a value of [raw_data]: [None] is not iterable. *)
Definition iter (v : option (list string)) : result (list string) :=
  match v with
  | Some l => Ok l
  | None => Err TypeError
  end.

(** [a[i]] for a one-dimensional array and a Python [int]: negative
    indices count from the end. *)
Definition np_index {A} (a : list A) (i : Z) : result A :=
  let n := Z.of_nat (List.length a) in
  let j := if (i <? 0)%Z then (i + n)%Z else i in
  if ((0 <=? j) && (j <? n))%Z%bool then
    match nth_error a (Z.to_nat j) with
    | Some x => Ok x
    | None => Err IndexError
    end
  else Err IndexError.

(** ** [_bohr_to_ang] and [_parse_atom_line] *)

Definition _bohr_to_ang (c : list F) : list F :=
  map (fun x => fmul x Bohr) c.

Definition _parse_atom_line (line : string)
  : result (string * Z * Z * F * F * F) :=
  match Str.split line with
  | [symbol; index; proton_number; x; y; z] =>
      index' <- PyInt.int index ;;
      proton_number' <- PyInt.int proton_number ;;
      x' <- float x ;;
      y' <- float y ;;
      z' <- float z ;;
      Ok (symbol, index', proton_number', x', y', z')
  | _ => Err ValueError
  end.

(** ** [parse_atoms_data] *)

(** One round of the dictionary comprehension: parse the line, build
    the key and the record, store it. *)
Definition atom_step (d : Dict.t string (AtomData F)) (line : string)
  : result (Dict.t string (AtomData F)) :=
  '(symbol, index, proton_number, x, y, z) <- _parse_atom_line line ;;
  m <- np_index atomic_masses proton_number ;;
  Ok (Dict.set String.eqb d
        ("atom_" ++ Str.of_Z (index - 1)%Z)%string
        {| coord := [x; y; z]; mass := m;
           sort := (index - 1)%Z; symbol := symbol |}).

Fixpoint atoms_loop (d : Dict.t string (AtomData F)) (lines : list string)
  : result (Dict.t string (AtomData F)) :=
  match lines with
  | [] => Ok d
  | line :: lines' => d' <- atom_step d line ;; atoms_loop d' lines'
  end.

Definition set_coord (a : AtomData F) (c : list F) : AtomData F :=
  {| coord := c; mass := mass a; sort := sort a; symbol := symbol a |}.

Definition convert_units (d : Dict.t string (AtomData F)) : Dict.t string (AtomData F) :=
  map (fun kv => (fst kv, set_coord (snd kv) (_bohr_to_ang (coord (snd kv))))) d.

Definition parse_atoms_data (raw : RawData) : result (Dict.t string (AtomData F)) :=
  '(raw_atom_lines, bohr_units) <-
     (if raw_mem raw "[Atoms] AU"
      then v <- raw_lookup raw "[Atoms] AU" ;; Ok (v, true)
      else v <- raw_lookup raw "[Atoms] Angs" ;; Ok (v, false)) ;;
  lines <- iter raw_atom_lines ;;
  d <- atoms_loop [] lines ;;
  Ok (if bohr_units : bool then convert_units d else d).

(** ** [_parse_displacements] *)

Record modes : Type := {
  modes_array : list (list (list F));
  current_mode_data : list (list F)
}.

Definition modes_init : modes :=
  {| modes_array := []; current_mode_data := [] |}.

Definition disp_step (st : modes) (line : string) : result modes :=
  if Str.contains "vibration" line then
    match current_mode_data st with
    | [] => Ok st
    | _ :: _ =>
        Ok {| modes_array := modes_array st ++ [current_mode_data st];
              current_mode_data := [] |}
    end
  else
    match Str.split line with
    | [x; y; z] =>
        x' <- float x ;;
        y' <- float y ;;
        z' <- float z ;;
        Ok {| modes_array := modes_array st;
              current_mode_data :=
                current_mode_data st ++ [[x'; fzero; y'; fzero; z'; fzero]] |}
    | _ => Err ValueError
    end.

Fixpoint disp_loop (st : modes) (lines : list string) : result modes :=
  match lines with
  | [] => Ok st
  | line :: lines' => st' <- disp_step st line ;; disp_loop st' lines'
  end.

(** [np.asarray(modes_array, dtype=float)] on a list of modes, each a
    list of six-component rows: the modes must all have the same number
    of rows, otherwise the shape is inhomogeneous. *)
Definition np_asarray (a : list (list (list F))) : result (list (list (list F))) :=
  match a with
  | [] => Ok []
  | r :: _ =>
      if forallb (fun r' => Nat.eqb (List.length r') (List.length r)) a
      then Ok a else Err ValueError
  end.

(** [np.expand_dims(a, 0)] *)
Definition expand_dims0 {A} (a : A) : list A := [a].

(** Exchange of the two outer axes of a rectangular nested list.  In a
    rectangular array every index is in range, so [dflt] is never
    returned. *)
Definition transpose {A} (dflt : A) (rows : list (list A)) : list (list A) :=
  match rows with
  | [] => []
  | r :: _ =>
      map (fun a => map (fun row => nth a row dflt) rows)
          (seq 0 (List.length r))
  end.

(** [a.swapaxes(1, 2)].  When no mode has a row the array is only
    three-dimensional after [expand_dims], of shape [(1, M, 0)], and the
    exchange yields shape [(1, 0, M)], which is what [transpose] gives. *)
Definition swapaxes12 (a : list (list (list (list F)))) : list (list (list (list F))) :=
  map (transpose []) a.

Definition _parse_displacements (raw : RawData)
  : result (list (list (list (list F)))) :=
  v <- raw_lookup raw "[FR-NORM-COORD]" ;;
  lines <- iter v ;;
  st <- disp_loop modes_init lines ;;
  a <- np_asarray (modes_array st ++ [current_mode_data st]) ;;
  Ok (swapaxes12 (expand_dims0 a)).

(** ** [parse_k_points_data] *)

Definition parse_k_points_data (raw : RawData) : result (KPointsData F) :=
  v <- raw_lookup raw "[FREQ]" ;;
  lines <- iter v ;;
  fs <- mapM float lines ;;
  displacements <- _parse_displacements raw ;;
  Ok {| k_vectors := [[fzero; fzero; fzero]];
        unit_cell := [[fzero; fzero; fzero];
                      [fzero; fzero; fzero];
                      [fzero; fzero; fzero]];
        weights := [fone];
        frequencies := [fs];
        atomic_displacements := displacements |}.

(** ** [main], from the opened stream to the record handed to [json] *)

Definition main (fd : list string) : result (OutputData F) :=
  fd' <- _check_first_line fd ;;
  raw <- _read_blocks fd' ;;
  atoms <- parse_atoms_data raw ;;
  k_points <- parse_k_points_data raw ;;
  Ok {| k_points_data := k_points;
        atoms_data := atoms;
        abins_class := "AbinsData";
        mantid_version := "6.9" |}.

End Program.

(** ** An executable instance of the interface

    Decimal literals are read as exact rationals [(m, e)] standing for
    [m * 10^e]; it serves to run the program on concrete files. *)

Module Dec.

Definition t : Type := Z * Z.

Fixpoint frac (s : string) (m e : Z) : option t :=
  match s with
  | EmptyString => Some (m, e)
  | String c s' =>
      if Str.isdigit c
      then frac s' (10 * m + Z.of_N (Str.code c - 48))%Z (e - 1)%Z
      else None
  end.

Fixpoint whole (s : string) (m : Z) (seen : bool) : option t :=
  match s with
  | EmptyString => if seen then Some (m, 0%Z) else None
  | String c s' =>
      if Str.isdigit c
      then whole s' (10 * m + Z.of_N (Str.code c - 48))%Z true
      else if Ascii.eqb c "."%char
           then match s' with
                | EmptyString => if seen then Some (m, 0%Z) else None
                | _ => frac s' m 0%Z
                end
           else None
  end.

Definition neg (x : t) : t := (- fst x, snd x)%Z.

Definition parse (s : string) : option t :=
  match Str.strip s with
  | String "-"%char s' => option_map neg (whole s' 0%Z false)
  | String "+"%char s' => whole s' 0%Z false
  | s' => whole s' 0%Z false
  end.

Definition mul (x y : t) : t := (fst x * fst y, snd x + snd y)%Z.

(** [x] written with the exponent [e], which must not exceed its own. *)
Definition at_exponent (e : Z) (x : t) : Z := (fst x * 10 ^ (snd x - e))%Z.

(** [|x - y| <= tol] *)
Definition within (tol x y : t) : Prop :=
  let e := Z.min (snd tol) (Z.min (snd x) (snd y)) in
  (Z.abs (at_exponent e x - at_exponent e y) <= at_exponent e tol)%Z.

#[export] Instance ops : FloatOps := {|
  F := t;
  float_of_string := parse;
  fzero := (0, 0)%Z;
  fone := (1, 0)%Z;
  fmul := mul;
  Bohr := (52917721067, -11)%Z;
  atomic_masses := [(1, 0)%Z; (1008, -3)%Z; (4002602, -6)%Z]
|}.

End Dec.

(** ** Vocabulary of the statements *)

(** Storing a list of key/value pairs one after the other. *)
Definition store_all {K V} (eqb : K -> K -> bool)
  (d : Dict.t K V) (kvs : list (K * V)) : Dict.t K V :=
  fold_left (fun d kv => Dict.set eqb d (fst kv) (snd kv)) kvs d.

(** The sections of a stripped stream that follows the header [h], in
    file order: [blk] holds the lines already read under [h]. *)
Fixpoint sections (h : string) (blk : list string) (ls : list string)
  : list (key * option (list string)) :=
  match ls with
  | [] => [(Some h, Some blk)]
  | l :: ls' =>
      if Re.header_match l then (Some h, Some blk) :: sections l [] ls'
      else sections h (blk ++ [l]) ls'
  end.

Definition is_content (l : string) : bool := negb (Re.header_match l).

(** A block set from which a required section is absent. *)
Definition lacks_required (raw : RawData) : Prop :=
  (raw_mem raw "[Atoms] AU" = false /\ raw_mem raw "[Atoms] Angs" = false) \/
  raw_mem raw "[FREQ]" = false \/
  raw_mem raw "[FR-NORM-COORD]" = false.

(** What one atom line yields: its six fields and the mass found for
    its proton number. *)
Record atom_fields (X : Type) : Type := {
  a_symbol : string;
  a_index : Z;
  a_proton : Z;
  a_x : X;
  a_y : X;
  a_z : X;
  a_mass : X
}.
Arguments a_symbol {X} _.
Arguments a_index {X} _.
Arguments a_proton {X} _.
Arguments a_x {X} _.
Arguments a_y {X} _.
Arguments a_z {X} _.
Arguments a_mass {X} _.

Section Vocabulary.
Context {FO : FloatOps}.

(** A well-formed atom line: it parses, and its proton number indexes
    the table of masses. *)
Definition atom_line_ok (line : string) (p : atom_fields F) : Prop :=
  _parse_atom_line line
    = Ok (a_symbol p, a_index p, a_proton p, a_x p, a_y p, a_z p) /\
  np_index atomic_masses (a_proton p) = Ok (a_mass p).

Definition atom_key (p : atom_fields F) : string :=
  ("atom_" ++ Str.of_Z (a_index p - 1)%Z)%string.

Definition atom_entry (p : atom_fields F) : string * (AtomData F) :=
  (atom_key p,
   {| coord := [a_x p; a_y p; a_z p]; mass := a_mass p;
      sort := (a_index p - 1)%Z; symbol := a_symbol p |}).

(** The atoms section the Geometry Extractor reads, with its unit flag. *)
Definition atoms_section (raw : RawData) (bohr : bool) (lines : list string)
  : Prop :=
  if bohr then raw_get raw "[Atoms] AU" = Some (Some lines)
  else raw_mem raw "[Atoms] AU" = false /\
       raw_get raw "[Atoms] Angs" = Some (Some lines).

(** The same atom written in Bohr ([pb]) and in Angstrom ([pa]): the
    Angstrom components are [close] to the Bohr ones times [Bohr]. *)
Definition same_atom (close : F -> F -> Prop) (pb pa : atom_fields F) : Prop :=
  a_symbol pb = a_symbol pa /\ a_index pb = a_index pa /\
  a_proton pb = a_proton pa /\
  close (fmul (a_x pb) Bohr) (a_x pa) /\
  close (fmul (a_y pb) Bohr) (a_y pa) /\
  close (fmul (a_z pb) Bohr) (a_z pa).

Definition entries_agree (close : F -> F -> Prop)
  (b a : string * (AtomData F)) : Prop :=
  fst b = fst a /\ sort (snd b) = sort (snd a) /\
  mass (snd b) = mass (snd a) /\ symbol (snd b) = symbol (snd a) /\
  Forall2 close (coord (snd b)) (coord (snd a)).

(** The record the Bohr branch leaves for an atom line: the fields of
    the line, with each coordinate multiplied by [Bohr]. *)
Definition bohr_record (p : atom_fields F) : AtomData F :=
  {| coord := [fmul (a_x p) Bohr; fmul (a_y p) Bohr; fmul (a_z p) Bohr];
     mass := a_mass p; sort := (a_index p - 1)%Z; symbol := a_symbol p |}.

Definition bohr_entry (p : atom_fields F) : string * AtomData F :=
  (atom_key p, bohr_record p).

(** Two lines that name the same atom: same symbol, index and proton
    number; nothing is said of the coordinates. *)
Definition same_site (pb pa : atom_fields F) : Prop :=
  a_symbol pb = a_symbol pa /\ a_index pb = a_index pa /\
  a_proton pb = a_proton pa.

(** The Angstrom components of [pa] are [close] to the Bohr components
    of [pb] times [Bohr]. *)
Definition site_close (close : F -> F -> Prop) (pb pa : atom_fields F) : Prop :=
  close (fmul (a_x pb) Bohr) (a_x pa) /\
  close (fmul (a_y pb) Bohr) (a_y pa) /\
  close (fmul (a_z pb) Bohr) (a_z pa).

(** Agreement of a record still in Bohr with a record in Angstrom: the
    former is compared after its conversion. *)
Definition agree_after_conversion (close : F -> F -> Prop)
  (b a : string * (AtomData F)) : Prop :=
  entries_agree close
    (fst b, set_coord (snd b) (_bohr_to_ang (coord (snd b)))) a.

(** The six components stored for one atom of one mode. *)
Definition row6 (v : F * F * F) : list F :=
  let '(x, y, z) := v in [x; fzero; y; fzero; z; fzero].

(** A well-formed eigenvector line and the three numbers it holds. *)
Definition row_ok (line : string) (v : F * F * F) : Prop :=
  Str.contains "vibration" line = false /\
  exists tx ty tz,
    Str.split line = [tx; ty; tz] /\
    float_of_string tx = Some (fst (fst v)) /\
    float_of_string ty = Some (snd (fst v)) /\
    float_of_string tz = Some (snd v).

(** A mode group: its delimiter line, then its atom lines, each with
    the numbers it holds. *)
Definition group : Type := string * list (string * (F * F * F)).

Definition group_lines (g : group) : list string := fst g :: map fst (snd g).

Definition group_rows (g : group) : list (list F) :=
  map (fun e => row6 (snd e)) (snd g).

Definition group_ok (K : nat) (g : group) : Prop :=
  Str.contains "vibration" (fst g) = true /\
  List.length (snd g) = K /\
  Forall (fun e => row_ok (fst e) (snd e)) (snd g).

(** What a delimiter line moves from the current mode to the array:
    the current mode when it has rows, nothing otherwise. *)
Definition pending (cur : list (list F)) : list (list (list F)) :=
  match cur with
  | [] => []
  | _ :: _ => [cur]
  end.

(** The array handed to [np.asarray] once the loop is over. *)
Definition collected (st : modes) : list (list (list F)) :=
  modes_array st ++ [current_mode_data st].

(** The normal-coordinates section made of the groups [gs]. *)
Definition coord_section (gs : list group) : list string :=
  flat_map group_lines gs.

(** Shape [[1][K][M][6]] with zero at every odd component. *)
Definition odd_zero (c : list F) : Prop :=
  List.length c = 6 /\
  nth_error c 1 = Some fzero /\ nth_error c 3 = Some fzero /\
  nth_error c 5 = Some fzero.

Definition shape_1KM6 (K M : nat) (a : list (list (list (list F)))) : Prop :=
  List.length a = 1 /\
  Forall (fun atoms =>
            List.length atoms = K /\
            Forall (fun ms => List.length ms = M /\ Forall odd_zero ms) atoms) a.

End Vocabulary.

(** ** Vocabulary of the further properties *)

(** A file body written section by section: each section is its header
    line followed by its content lines. *)
Definition section_text (s : string * list string) : list string :=
  fst s :: snd s.

Definition body_of_sections (secs : list (string * list string)) : list string :=
  flat_map section_text secs.

Definition section_entry (s : string * list string)
  : key * option (list string) :=
  (Some (fst s), Some (snd s)).

(** A section as the Block Reader stores it: a header line, then
    content lines, all without surrounding whitespace. *)
Definition section_ok (s : string * list string) : Prop :=
  Re.header_match (fst s) = true /\ Str.strip (fst s) = fst s /\
  Forall (fun l => Re.header_match l = false /\ Str.strip l = l) (snd s).

Definition starts_space (s : string) : bool :=
  match s with
  | String c _ => Str.isspace c
  | EmptyString => false
  end.

Definition chars_in_class (w : string) : Prop :=
  Forall (fun c => Re.in_class c = true) (list_ascii_of_string w).

Section VocabularyMore.
Context {FO : FloatOps}.

(** A mode group with at least one atom line, all of them well formed. *)
Definition group_wf (g : group) : Prop :=
  group_ok (List.length (snd g)) g /\ 0 < List.length (snd g).

(** Every row of every mode has six components with zero at the odd
    positions. *)
Definition rows_odd_zero (a : list (list (list F))) : Prop :=
  Forall (Forall odd_zero) a.

End VocabularyMore.

(** ** Generic facts: the monad and dictionaries *)

Unset Implicit Arguments.

(** Tactics that check a concrete eigenvector line and a concrete mode
    group by evaluation. *)
Ltac row_holds :=
  split;
  [ reflexivity
  | do 3 eexists; split; [reflexivity|]; split; [reflexivity|];
    split; reflexivity ].

Ltac group_holds :=
  split; [reflexivity|]; split; [reflexivity|];
  repeat (constructor; [row_holds|]); constructor.

Lemma key_eqb_spec (a b : key) : reflect (a = b) (key_eqb a b).
Proof.
  destruct a as [x|], b as [y|]; simpl; try (constructor; congruence).
  destruct (String.eqb_spec x y); constructor; congruence.
Qed.

Section DictFacts.
Variables K V : Type.
Variable eqb : K -> K -> bool.
Hypothesis eqb_spec : forall a b, reflect (a = b) (eqb a b).

Lemma get_set_same (d : Dict.t K V) k v :
  Dict.get eqb (Dict.set eqb d k v) k = Some v.
Proof.
  induction d as [|[k' v'] d IH]; simpl.
  - destruct (eqb_spec k k); congruence.
  - destruct (eqb_spec k k') as [->|N]; simpl.
    + destruct (eqb_spec k' k'); congruence.
    + destruct (eqb_spec k k'); [congruence | exact IH].
Qed.

Lemma get_set_other (d : Dict.t K V) k k' v :
  k <> k' -> Dict.get eqb (Dict.set eqb d k' v) k = Dict.get eqb d k.
Proof.
  intros N. induction d as [|[k0 v0] d IH]; simpl.
  - destruct (eqb_spec k k'); congruence.
  - destruct (eqb_spec k' k0) as [->|N0]; simpl.
    + destruct (eqb_spec k k0); congruence.
    + destruct (eqb_spec k k0); [reflexivity | exact IH].
Qed.

Lemma get_none_not_in (d : Dict.t K V) k :
  Dict.get eqb d k = None <-> ~ In k (Dict.keys d).
Proof.
  induction d as [|[k' v'] d IH]; simpl.
  - tauto.
  - destruct (eqb_spec k k') as [->|N].
    + split; [discriminate | intros H; exfalso; apply H; now left].
    + rewrite IH. split; intros H; [intros [E|I]; congruence | tauto].
Qed.

Lemma set_fresh (d : Dict.t K V) k v :
  ~ In k (Dict.keys d) -> Dict.set eqb d k v = d ++ [(k, v)].
Proof.
  induction d as [|[k' v'] d IH]; simpl; intros H; [reflexivity|].
  destruct (eqb_spec k k') as [->|N]; [exfalso; apply H; now left|].
  rewrite IH; [reflexivity | tauto].
Qed.

Lemma keys_set (d : Dict.t K V) k v :
  Dict.keys (Dict.set eqb d k v) =
  if Dict.mem eqb d k then Dict.keys d else Dict.keys d ++ [k].
Proof.
  unfold Dict.mem. induction d as [|[k' v'] d IH]; simpl; [reflexivity|].
  destruct (eqb_spec k k') as [->|N]; simpl; [reflexivity|].
  rewrite IH. destruct (Dict.get eqb d k); reflexivity.
Qed.

Lemma keys_set_nodup (d : Dict.t K V) k v :
  NoDup (Dict.keys d) -> NoDup (Dict.keys (Dict.set eqb d k v)).
Proof.
  intros ND. rewrite keys_set. unfold Dict.mem.
  destruct (Dict.get eqb d k) eqn:G; [exact ND|].
  apply get_none_not_in in G.
  apply NoDup_app; [exact ND | repeat constructor; simpl; tauto |].
  intros x Hx [<-|[]]; contradiction.
Qed.

Lemma store_all_nodup (kvs : list (K * V)) (d : Dict.t K V) :
  NoDup (Dict.keys d) -> NoDup (Dict.keys (store_all eqb d kvs)).
Proof.
  revert d. induction kvs as [|[k v] kvs IH]; simpl; intros d ND; [exact ND|].
  apply IH. now apply keys_set_nodup.
Qed.

(** Storing pairs whose keys are new and pairwise distinct appends
    them in order. *)
Lemma store_all_fresh (kvs : list (K * V)) (d : Dict.t K V) :
  NoDup (Dict.keys d ++ map fst kvs) -> store_all eqb d kvs = d ++ kvs.
Proof.
  revert d. induction kvs as [|[k v] kvs IH]; simpl; intros d ND.
  - now rewrite app_nil_r.
  - rewrite set_fresh.
    + rewrite IH.
      * now rewrite <- app_assoc.
      * unfold Dict.keys in *. rewrite map_app. simpl.
        rewrite <- app_assoc. exact ND.
    + apply NoDup_remove_2 in ND. intros I. apply ND.
      apply in_or_app. now left.
Qed.

(** The last pair stored under a key decides the value read back. *)
Lemma store_all_last (pre post : list (K * V)) (d : Dict.t K V) k v :
  ~ In k (map fst post) ->
  Dict.get eqb (store_all eqb d (pre ++ (k, v) :: post)) k = Some v.
Proof.
  unfold store_all. rewrite fold_left_app. simpl.
  generalize (fold_left (fun d kv => Dict.set eqb d (fst kv) (snd kv)) pre d).
  clear d pre. intros d. revert d.
  induction post as [|[k' v'] post IH]; simpl; intros d N.
  - apply get_set_same.
  - assert (E : forall d0, Dict.get eqb
              (fold_left (fun d kv => Dict.set eqb d (fst kv) (snd kv)) post d0) k
              = Dict.get eqb d0 k).
    { clear IH d. induction post as [|[k2 v2] post IH2]; simpl; intros d0.
      - reflexivity.
      - rewrite IH2; [|simpl in N; tauto].
        apply get_set_other. simpl in N. intros ->. tauto. }
    rewrite E. rewrite get_set_other; [apply get_set_same|].
    intros ->. tauto.
Qed.
End DictFacts.

(** ** The Block Reader *)

(** Once a header is open the loop cannot fail, and the mapping it
    leaves after the final commit is the one obtained by storing the
    sections in file order. *)
Lemma read_loop_sections (ls : list string) (d : RawData) (h : string)
  (blk : list string) :
  Re.header_match h = true ->
  exists st,
    read_loop {| raw_data := d; current_header := Some h;
                 current_block := Some blk |} ls = Ok st /\
    commit st = store_all key_eqb d (sections h blk ls).
Proof.
  revert d h blk. induction ls as [|l ls IH]; intros d h blk Hh; simpl.
  - eexists; split; [reflexivity|]. reflexivity.
  - unfold read_step; simpl. destruct (Re.header_match l) eqn:Hl; simpl.
    + destruct h as [|c h']; [discriminate Hh|]. simpl.
      destruct (IH (commit {| raw_data := d; current_header := Some (String c h');
                              current_block := Some blk |}) l [] Hl)
        as [st [E1 E2]].
      exists st. split; [exact E1|]. rewrite E2. reflexivity.
    + destruct (IH d h (blk ++ [l]) Hh) as [st [E1 E2]].
      exists st. split; [exact E1 | exact E2].
Qed.

Lemma read_blocks_sections (l : string) (fd : list string) :
  Re.header_match (Str.strip l) = true ->
  _read_blocks (l :: fd) =
  Ok (store_all key_eqb [] (sections (Str.strip l) [] (map Str.strip fd))).
Proof.
  intros Hl. unfold _read_blocks. simpl. unfold read_step. rewrite Hl. simpl.
  destruct (read_loop_sections (map Str.strip fd) [] (Str.strip l) [] Hl) as [st [E1 E2]].
  rewrite E1. simpl. now rewrite E2.
Qed.

Lemma sections_keys (ls : list string) (h : string) (blk : list string) :
  map fst (sections h blk ls) = map Some (h :: filter Re.header_match ls).
Proof.
  revert h blk. induction ls as [|l ls IH]; intros h blk; simpl; [reflexivity|].
  destruct (Re.header_match l); simpl.
  - now rewrite IH.
  - apply IH.
Qed.

Lemma sections_blocks (ls : list string) (h : string) (blk : list string) :
  exists blocks,
    map snd (sections h blk ls) = map Some blocks /\
    List.concat blocks = blk ++ filter is_content ls.
Proof.
  revert h blk. induction ls as [|l ls IH]; intros h blk; simpl.
  - exists [blk]. simpl. rewrite !app_nil_r. split; reflexivity.
  - unfold is_content at 1. destruct (Re.header_match l) eqn:Hl; simpl.
    + destruct (IH l []) as [bs [E1 E2]].
      exists (blk :: bs). simpl. rewrite E1, E2. split; reflexivity.
    + destruct (IH h (blk ++ [l])) as [bs [E1 E2]].
      exists bs. split; [exact E1|]. rewrite E2, <- app_assoc. reflexivity.
Qed.

Lemma sections_body (body post : list string) (h : string) (blk : list string) :
  Forall (fun l => Re.header_match l = false) body ->
  sections h blk (body ++ post) = sections h (blk ++ body) post.
Proof.
  intros Hb. revert blk. induction Hb as [|l body Hl _ IH]; intros blk; simpl.
  - now rewrite app_nil_r.
  - rewrite Hl, IH, <- app_assoc. reflexivity.
Qed.

Lemma sections_split (pre post : list string) (h0 h : string) (blk0 : list string) :
  Re.header_match h = true ->
  exists ps, sections h0 blk0 (pre ++ h :: post) = ps ++ sections h [] post.
Proof.
  intros Hh. revert h0 blk0. induction pre as [|l pre IH]; intros h0 blk0; simpl.
  - rewrite Hh. exists [(Some h0, Some blk0)]. reflexivity.
  - destruct (Re.header_match l).
    + destruct (IH l []) as [ps E]. exists ((Some h0, Some blk0) :: ps).
      rewrite E. reflexivity.
    + apply IH.
Qed.

Lemma Some_inj_in (h : string) (l : list string) :
  In (Some h) (map Some l) -> In h l.
Proof.
  rewrite in_map_iff. intros [x [E I]]. now inversion E; subst.
Qed.

Lemma NoDup_map_Some (l : list string) : NoDup l -> NoDup (map Some l).
Proof.
  induction 1 as [|x l N _ IH]; simpl; constructor; [|exact IH].
  intros I. apply N. now apply Some_inj_in.
Qed.

(** C3 (counterexample): a content line ahead of the first header makes
    the Block Reader fail: the append meets the uninitialised block, and
    no mapping is returned. *)
Lemma read_blocks_headerless_prefix_fails :
  _read_blocks ["junk"; "[FREQ]"; "1.0"] = Err AttributeError /\
  ~ (exists d, _read_blocks ["junk"; "[FREQ]"; "1.0"] = Ok d).
Proof.
  split; [reflexivity|]. intros [d H]. vm_compute in H. discriminate.
Qed.

(** C3 (as amended): for every stream whose first line, once stripped,
    is not a header line, the Block Reader raises [AttributeError] and
    returns no mapping; a headerless prefix is not tolerated. *)
Theorem read_blocks_content_first (l : string) (fd : list string) :
  Re.header_match (Str.strip l) = false ->
  _read_blocks (l :: fd) = Err AttributeError.
Proof.
  intros H. unfold _read_blocks. simpl. unfold read_step. rewrite H.
  reflexivity.
Qed.

Lemma read_blocks_content_first_witness :
  _read_blocks [""; "[Atoms] AU"; "H 1 1 0.0 0.0 0.0"] = Err AttributeError.
Proof.
  apply (read_blocks_content_first "" ["[Atoms] AU"; "H 1 1 0.0 0.0 0.0"]).
  reflexivity.
Defined.

(** C4: when the stream opens with a header and its header lines are
    pairwise distinct, the Block Reader returns a mapping whose keys are
    exactly the stripped header lines in file order, one per header, and
    whose blocks, concatenated in that order, are exactly the stripped
    content lines of the stream in file order, the last section
    included. *)
Theorem read_blocks_complete (fd : list string) (h : string) (rest : list string) :
  map Str.strip fd = h :: rest ->
  Re.header_match h = true ->
  NoDup (filter Re.header_match (map Str.strip fd)) ->
  exists d blocks,
    _read_blocks fd = Ok d /\
    Dict.keys d = map Some (filter Re.header_match (map Str.strip fd)) /\
    List.length d = List.length (filter Re.header_match (map Str.strip fd)) /\
    Dict.values d = map Some blocks /\
    List.concat blocks = filter is_content (map Str.strip fd).
Proof.
  intros E Hh ND. destruct fd as [|l fd]; [discriminate E|].
  simpl in E. injection E as E1 E2. subst h rest.
  simpl in ND |- *. unfold is_content at 1. rewrite Hh in ND |- *. simpl.
  destruct (sections_blocks (map Str.strip fd) (Str.strip l) []) as [bs [B1 B2]].
  pose proof (sections_keys (map Str.strip fd) (Str.strip l) []) as SK.
  exists (sections (Str.strip l) [] (map Str.strip fd)), bs.
  assert (S : store_all key_eqb [] (sections (Str.strip l) [] (map Str.strip fd))
              = sections (Str.strip l) [] (map Str.strip fd)).
  { rewrite (@store_all_fresh _ _ _ key_eqb_spec); [reflexivity|]. simpl.
    rewrite SK. apply NoDup_map_Some. exact ND. }
  split; [rewrite read_blocks_sections by exact Hh; now rewrite S|].
  split; [exact SK|].
  split.
  - rewrite <- (length_map fst), SK. simpl. now rewrite length_map.
  - split; [exact B1 | exact B2].
Qed.

Lemma read_blocks_complete_witness :
  exists d blocks,
    _read_blocks ["[Atoms] AU
"; " H 1 1 0.0 0.0 0.0
"; "[FREQ]
"; "4500.0"] = Ok d /\
    Dict.keys d = [Some "[Atoms] AU"; Some "[FREQ]"] /\
    List.length d = 2 /\
    Dict.values d = map Some blocks /\
    List.concat blocks = ["H 1 1 0.0 0.0 0.0"; "4500.0"].
Proof.
  apply (@read_blocks_complete ["[Atoms] AU
"; " H 1 1 0.0 0.0 0.0
"; "[FREQ]
"; "4500.0"] "[Atoms] AU" ["H 1 1 0.0 0.0 0.0"; "[FREQ]"; "4500.0"]).
  - reflexivity.
  - reflexivity.
  - vm_compute. repeat constructor; simpl; intuition discriminate.
Defined.

Lemma sections_keys_in (ls : list string) (h k : string) (blk : list string) :
  In (Some k) (map fst (sections h blk ls)) -> k = h \/ In k ls.
Proof.
  rewrite sections_keys. simpl. intros [E|I].
  - left. now inversion E.
  - right. apply Some_inj_in in I. apply filter_In in I. tauto.
Qed.

(** C10: when a header line occurs again later in the stream, the
    mapping returned by the Block Reader gives that header the content
    lines that follow its last occurrence only; the key occurs once, the
    earlier blocks are overwritten, and the reader returns normally. *)
Theorem read_blocks_last_occurrence_wins
  (fd pre blk post : list string) (h0 h : string) :
  map Str.strip fd = h0 :: pre ++ h :: blk ++ post ->
  Re.header_match h0 = true ->
  Re.header_match h = true ->
  In h (h0 :: pre) ->
  Forall (fun l => Re.header_match l = false) blk ->
  (forall l, hd_error post = Some l -> Re.header_match l = true) ->
  ~ In h post ->
  exists d,
    _read_blocks fd = Ok d /\
    raw_get d h = Some (Some blk) /\
    NoDup (Dict.keys d).
Proof.
  intros E H0 Hh _ Hblk Hpost Hlast.
  destruct fd as [|l fd]; [discriminate E|].
  simpl in E. injection E as E1 E2. rewrite <- E1 in H0.
  rewrite (read_blocks_sections l fd H0), E1, E2.
  eexists; split; [reflexivity|]. split.
  - destruct (sections_split pre (blk ++ post) h0 h [] Hh) as [ps Eps].
    rewrite Eps, sections_body by exact Hblk. simpl.
    assert (T : exists tl, sections h blk post = (Some h, Some blk) :: tl /\
                           ~ In (Some h) (map fst tl)).
    { destruct post as [|p post]; simpl.
      - exists []. split; [reflexivity | simpl; tauto].
      - rewrite (Hpost p eq_refl). eexists; split; [reflexivity|].
        intros I. apply sections_keys_in in I. apply Hlast.
        destruct I as [->|I]; [now left | now right]. }
    destruct T as [tl [Et Nt]]. rewrite Et.
    unfold raw_get. apply (@store_all_last _ _ _ key_eqb_spec). exact Nt.
  - apply (@store_all_nodup _ _ _ key_eqb_spec). constructor.
Qed.

Lemma read_blocks_last_occurrence_wins_witness :
  exists d,
    _read_blocks ["[FREQ]"; "1.0"; "[Atoms] AU"; "[FREQ]"; "2.0"; "3.0"; "[Title]"]
      = Ok d /\
    raw_get d "[FREQ]" = Some (Some ["2.0"; "3.0"]) /\
    NoDup (Dict.keys d).
Proof.
  apply (@read_blocks_last_occurrence_wins
           ["[FREQ]"; "1.0"; "[Atoms] AU"; "[FREQ]"; "2.0"; "3.0"; "[Title]"]
           ["1.0"; "[Atoms] AU"] ["2.0"; "3.0"] ["[Title]"] "[FREQ]" "[FREQ]").
  - reflexivity.
  - reflexivity.
  - reflexivity.
  - now left.
  - repeat constructor.
  - intros l E. injection E as <-. reflexivity.
  - simpl. intros [E|[]]. discriminate E.
Defined.

(** ** The header gate *)

(** C6 (counterexample): a first line that is not exactly the header
    text, because blanks surround it, passes the check, and the
    conversion goes on to produce a record. *)
Lemma header_gate_strips_first_line :
  "  [Molden Format] " <> "[Molden Format]" /\
  _check_first_line ["  [Molden Format] "; "[FREQ]"] = Ok ["[FREQ]"] /\
  is_ok (main (FO := Dec.ops)
           ["  [Molden Format] "; "[Atoms] Angs"; "H 1 1 0.0 0.0 0.0";
            "[FREQ]"; "4500.0"; "[FR-NORM-COORD]"; "vibration 1";
            "0.0 0.0 0.1"]) = true.
Proof.
  split; [discriminate|]. split; reflexivity.
Qed.

Section Gate.
Context {FO : FloatOps}.

(** C6 (as amended): when the first line, after surrounding whitespace
    is stripped, is not exactly [[Molden Format]] (an empty stream
    included), the conversion fails with [ValueError] whatever the rest
    of the stream holds, before any section is read; when the stripped
    first line is exactly that text the check passes and the conversion
    is the parsing of the remaining lines. *)
Theorem header_gate (fd : list string) :
  (Str.strip (fst (readline fd)) <> "[Molden Format]" ->
   _check_first_line fd = Err ValueError /\ main fd = Err ValueError) /\
  (Str.strip (fst (readline fd)) = "[Molden Format]" ->
   _check_first_line fd = Ok (snd (readline fd)) /\
   main fd =
     (raw <- _read_blocks (snd (readline fd)) ;;
      atoms <- parse_atoms_data raw ;;
      k_points <- parse_k_points_data raw ;;
      Ok {| k_points_data := k_points; atoms_data := atoms;
            abins_class := "AbinsData"; mantid_version := "6.9" |})).
Proof.
  unfold main, _check_first_line. destruct (readline fd) as [l fd'] eqn:R.
  simpl. destruct (String.eqb_spec (Str.strip l) "[Molden Format]") as [E|N];
    simpl; split; intros H; try contradiction; split; reflexivity.
Qed.

End Gate.

Lemma header_gate_witness :
  (_check_first_line ["[Atoms] AU"; "H 1 1 0.0 0.0 0.0"] = Err ValueError /\
   main (FO := Dec.ops) ["[Atoms] AU"; "H 1 1 0.0 0.0 0.0"] = Err ValueError) /\
  _check_first_line ["[Molden Format]
"; "[FREQ]"] = Ok ["[FREQ]"].
Proof.
  split.
  - apply (proj1 (header_gate (FO := Dec.ops) ["[Atoms] AU"; "H 1 1 0.0 0.0 0.0"])).
    vm_compute. discriminate.
  - apply (proj2 (header_gate (FO := Dec.ops) ["[Molden Format]
"; "[FREQ]"])).
    reflexivity.
Defined.

(** ** Missing sections *)

Section Missing.
Context {FO : FloatOps}.

Lemma raw_lookup_absent (raw : RawData) (k : string) :
  raw_mem raw k = false -> raw_lookup raw k = Err KeyError.
Proof.
  unfold raw_mem, raw_lookup, Dict.mem, Dict.lookup.
  destruct (Dict.get key_eqb raw (Some k)); [discriminate | reflexivity].
Qed.

Lemma raw_lookup_present (raw : RawData) (k : string) v :
  raw_get raw k = Some v -> raw_mem raw k = true /\ raw_lookup raw k = Ok v.
Proof.
  unfold raw_get, raw_mem, raw_lookup, Dict.mem, Dict.lookup.
  intros ->. split; reflexivity.
Qed.

Lemma atoms_missing (raw : RawData) :
  raw_mem raw "[Atoms] AU" = false -> raw_mem raw "[Atoms] Angs" = false ->
  parse_atoms_data raw = Err KeyError.
Proof.
  intros A B. unfold parse_atoms_data. rewrite A.
  rewrite (raw_lookup_absent raw "[Atoms] Angs" B). reflexivity.
Qed.

Lemma freq_missing (raw : RawData) :
  raw_mem raw "[FREQ]" = false -> parse_k_points_data raw = Err KeyError.
Proof.
  intros A. unfold parse_k_points_data.
  rewrite (raw_lookup_absent raw "[FREQ]" A). reflexivity.
Qed.

Lemma norm_coord_missing (raw : RawData) :
  raw_mem raw "[FR-NORM-COORD]" = false ->
  _parse_displacements raw = Err KeyError.
Proof.
  intros A. unfold _parse_displacements.
  rewrite (raw_lookup_absent raw "[FR-NORM-COORD]" A). reflexivity.
Qed.

Lemma k_points_norm_coord_missing (raw : RawData) :
  raw_mem raw "[FR-NORM-COORD]" = false ->
  is_ok (parse_k_points_data raw) = false.
Proof.
  intros A. unfold parse_k_points_data.
  rewrite (norm_coord_missing raw A).
  destruct (raw_lookup raw "[FREQ]") as [v|e]; simpl; [|reflexivity].
  destruct (iter v) as [lines|e]; simpl; [|reflexivity].
  destruct (mapM float lines); reflexivity.
Qed.

(** C7: a block set without any atoms section makes the Geometry
    Extractor raise [KeyError]; one without [[FREQ]] makes the Mode
    Extractor raise [KeyError]; one without [[FR-NORM-COORD]] makes the
    displacement parser raise [KeyError], which is what the Mode
    Extractor raises once the frequencies are read, and the Mode
    Extractor never returns; in each case the conversion returns no
    record.  A Bohr-tagged atoms section is used whenever it is
    present, whether or not the Angstrom one is. *)
Theorem missing_section_errors (raw : RawData) :
  (raw_mem raw "[Atoms] AU" = false -> raw_mem raw "[Atoms] Angs" = false ->
   parse_atoms_data raw = Err KeyError) /\
  (raw_mem raw "[FREQ]" = false -> parse_k_points_data raw = Err KeyError) /\
  (raw_mem raw "[FR-NORM-COORD]" = false ->
   _parse_displacements raw = Err KeyError /\
   is_ok (parse_k_points_data raw) = false /\
   (forall lines fs,
      raw_get raw "[FREQ]" = Some (Some lines) -> mapM float lines = Ok fs ->
      parse_k_points_data raw = Err KeyError)) /\
  (lacks_required raw ->
   forall fd fd',
     _check_first_line fd = Ok fd' -> _read_blocks fd' = Ok raw ->
     is_ok (main fd) = false) /\
  (forall v, raw_get raw "[Atoms] AU" = Some v ->
   parse_atoms_data raw =
     (lines <- iter v ;; d <- atoms_loop [] lines ;; Ok (convert_units d))).
Proof.
  split; [apply atoms_missing|].
  split; [apply freq_missing|].
  split.
  { intros A. split; [now apply norm_coord_missing|].
    split; [now apply k_points_norm_coord_missing|].
    intros lines fs G M. unfold parse_k_points_data.
    destruct (raw_lookup_present raw "[FREQ]" _ G) as [_ ->]. simpl.
    rewrite M. simpl. rewrite (norm_coord_missing raw A). reflexivity. }
  split.
  { intros L fd fd' C R. unfold main. rewrite C. simpl. rewrite R. simpl.
    destruct L as [[A B]|[A|A]].
    - rewrite (atoms_missing raw A B). reflexivity.
    - destruct (parse_atoms_data raw); simpl; [|reflexivity].
      rewrite (freq_missing raw A). reflexivity.
    - destruct (parse_atoms_data raw); simpl; [|reflexivity].
      pose proof (k_points_norm_coord_missing raw A) as N.
      destruct (parse_k_points_data raw); [discriminate N | reflexivity]. }
  intros v G. unfold parse_atoms_data.
  destruct (raw_lookup_present raw "[Atoms] AU" _ G) as [-> ->]. simpl.
  destruct (iter v) as [l|e]; simpl; [|reflexivity].
  destruct (atoms_loop [] l); reflexivity.
Qed.

End Missing.

Lemma missing_section_errors_witness :
  (parse_atoms_data (FO := Dec.ops) [(Some "[Title]", Some [])] = Err KeyError /\
   parse_k_points_data (FO := Dec.ops) [(Some "[Title]", Some [])] = Err KeyError /\
   _parse_displacements (FO := Dec.ops) [(Some "[Title]", Some [])] = Err KeyError /\
   is_ok (main (FO := Dec.ops) ["[Molden Format]"; "[Title]"]) = false) /\
  parse_atoms_data (FO := Dec.ops)
    [(Some "[Atoms] Angs", Some ["H 1 1 1.0 0.0 0.0"]);
     (Some "[Atoms] AU", Some ["H 1 1 2.0 0.0 0.0"])]
  = Ok [("atom_0",
         @Build_AtomData Dec.t
           [(1058354421340, -12)%Z; (0, -12)%Z; (0, -12)%Z] (1008, -3)%Z 0 "H")].
Proof.
  pose proof (missing_section_errors (FO := Dec.ops) [(Some "[Title]", Some [])])
    as [A [B [C [D _]]]].
  split.
  - split; [apply A; reflexivity|].
    split; [apply B; reflexivity|].
    split; [apply C; reflexivity|].
    apply (D (or_intror (or_introl eq_refl))
             ["[Molden Format]"; "[Title]"] ["[Title]"]); reflexivity.
  - pose proof (missing_section_errors (FO := Dec.ops)
                  [(Some "[Atoms] Angs", Some ["H 1 1 1.0 0.0 0.0"]);
                   (Some "[Atoms] AU", Some ["H 1 1 2.0 0.0 0.0"])])
      as [_ [_ [_ [_ E]]]].
    rewrite (E (Some ["H 1 1 2.0 0.0 0.0"]) eq_refl). reflexivity.
Defined.

(** ** The Geometry Extractor *)

Lemma string_eqb_spec (a b : string) : reflect (a = b) (String.eqb a b).
Proof. apply String.eqb_spec. Qed.

Lemma of_Z_inj (a b : Z) : Str.of_Z a = Str.of_Z b -> a = b.
Proof.
  unfold Str.of_Z. intros E. apply to_int_inj.
  assert (N : forall z, Z.to_int z <> Decimal.Pos Decimal.Nil /\
                        Z.to_int z <> Decimal.Neg Decimal.Nil).
  { intros [|p|p]; simpl; split; try discriminate; intros H; injection H as H;
      now apply DecimalPos.Unsigned.to_uint_nonnil in H. }
  assert (S : Some (Z.to_int a) = Some (Z.to_int b)).
  { rewrite <- (NilZero.isi (Z.to_int a)) by apply N.
    rewrite <- (NilZero.isi (Z.to_int b)) by apply N. now rewrite E. }
  now injection S.
Qed.

Section Geometry.
Context {FO : FloatOps}.

Lemma atom_key_inj (p q : atom_fields F) :
  atom_key p = atom_key q -> a_index p = a_index q.
Proof.
  unfold atom_key. simpl. intros E. injection E as E.
  apply of_Z_inj in E. lia.
Qed.

Lemma atom_step_ok (d : Dict.t string (AtomData F)) (line : string) (p : atom_fields F) :
  atom_line_ok line p ->
  atom_step d line = Ok (Dict.set String.eqb d (fst (atom_entry p)) (snd (atom_entry p))).
Proof.
  intros [P M]. unfold atom_step. rewrite P. simpl. rewrite M. reflexivity.
Qed.

(** The comprehension stores one entry per line, in line order. *)
Lemma atoms_loop_ok (lines : list string) (ps : list (atom_fields F)) :
  Forall2 atom_line_ok lines ps ->
  forall d, atoms_loop d lines = Ok (store_all String.eqb d (map atom_entry ps)).
Proof.
  induction 1 as [|line p lines ps H _ IH]; intros d; simpl; [reflexivity|].
  rewrite (atom_step_ok d line p H). simpl. apply IH.
Qed.

Lemma atom_keys_nodup (ps : list (atom_fields F)) :
  NoDup (map a_index ps) -> NoDup (map fst (map atom_entry ps)).
Proof.
  induction ps as [|p ps IH]; simpl; intros ND; [constructor|].
  inversion ND as [|? ? N ND']; subst. constructor; [|now apply IH].
  intros I. apply N. rewrite map_map in I. simpl in I.
  apply in_map_iff in I. destruct I as [q [E I]].
  apply in_map_iff. exists q. split; [|exact I].
  now apply atom_key_inj.
Qed.

Lemma parse_atoms_data_section (raw : RawData) (bohr : bool) (lines : list string) :
  atoms_section raw bohr lines ->
  parse_atoms_data raw =
  (d <- atoms_loop [] lines ;; Ok (if bohr then convert_units d else d)).
Proof.
  unfold atoms_section, parse_atoms_data, raw_get, raw_mem, raw_lookup,
    Dict.mem, Dict.lookup.
  destruct bohr.
  - intros ->. reflexivity.
  - intros [A ->]. destruct (Dict.get key_eqb raw (Some "[Atoms] AU"));
      [discriminate A | reflexivity].
Qed.

Lemma convert_units_keys (d : Dict.t string (AtomData F)) :
  Dict.keys (convert_units d) = Dict.keys d.
Proof.
  unfold Dict.keys, convert_units. rewrite map_map. reflexivity.
Qed.

Lemma convert_units_sorts (d : Dict.t string (AtomData F)) :
  map sort (Dict.values (convert_units d)) = map sort (Dict.values d).
Proof.
  unfold Dict.values, convert_units. rewrite !map_map. reflexivity.
Qed.

(** C2 (as amended): for an atoms section of K well-formed lines whose
    index fields are pairwise distinct, in whatever order, the Geometry
    Extractor returns K records in file line order; the record of a line
    has its sort equal to the index field of that line minus one and is
    keyed [atom_<sort>]; the sorts are 0..K-1 in line order when the
    index fields are 1..K in line order. *)
Theorem atom_sort_follows_index_field
  (raw : RawData) (bohr : bool) (lines : list string) (ps : list (atom_fields F)) :
  atoms_section raw bohr lines ->
  Forall2 atom_line_ok lines ps ->
  NoDup (map a_index ps) ->
  exists d,
    parse_atoms_data raw = Ok d /\
    List.length d = List.length lines /\
    Dict.keys d = map (fun p => ("atom_" ++ Str.of_Z (a_index p - 1)%Z)%string) ps /\
    map sort (Dict.values d) = map (fun p => (a_index p - 1)%Z) ps /\
    (map a_index ps = map (fun i => Z.of_nat (S i)) (seq 0 (List.length lines)) ->
     map sort (Dict.values d) = map Z.of_nat (seq 0 (List.length lines))).
Proof.
  intros S W ND.
  rewrite (parse_atoms_data_section raw bohr lines S).
  rewrite (atoms_loop_ok lines ps W []). simpl.
  rewrite (@store_all_fresh _ _ _ string_eqb_spec)
    by (simpl; now apply atom_keys_nodup).
  simpl.
  set (d0 := map atom_entry ps).
  assert (L : List.length d0 = List.length lines).
  { unfold d0. rewrite length_map. symmetry. eapply Forall2_length; eauto. }
  assert (Kd : Dict.keys d0 = map (fun p => ("atom_" ++ Str.of_Z (a_index p - 1)%Z)%string) ps).
  { unfold d0, Dict.keys. rewrite map_map. reflexivity. }
  assert (Sd : map sort (Dict.values d0) = map (fun p => (a_index p - 1)%Z) ps).
  { unfold d0, Dict.values. rewrite !map_map. reflexivity. }
  exists (if bohr then convert_units d0 else d0).
  split; [reflexivity|].
  assert (Sd' : map sort (Dict.values (if bohr then convert_units d0 else d0))
                = map (fun p => (a_index p - 1)%Z) ps).
  { destruct bohr; [rewrite convert_units_sorts|]; exact Sd. }
  split; [destruct bohr; [unfold convert_units; rewrite length_map|]; exact L|].
  split; [destruct bohr; [rewrite convert_units_keys|]; exact Kd|].
  split; [exact Sd'|].
  intros E. rewrite Sd'.
  rewrite <- (map_map a_index (fun i => (i - 1)%Z)), E, map_map.
  apply map_ext. intros i. lia.
Qed.

End Geometry.

(** C2 (counterexample): two well-formed lines whose index fields read
    2 then 1 give sorts 1 then 0 and keys [atom_1], [atom_0]: the sort
    comes from the index field, not from the position of the line. *)
Lemma atom_sort_not_line_order :
  exists d,
    parse_atoms_data (FO := Dec.ops)
      [(Some "[Atoms] Angs", Some ["H 2 1 0.0 0.0 0.0"; "H 1 1 0.0 0.0 0.74"])]
      = Ok d /\
    map sort (Dict.values d) = [1; 0]%Z /\
    Dict.keys d = ["atom_1"; "atom_0"] /\
    map sort (Dict.values d) <> [0; 1]%Z.
Proof.
  eexists. split; [reflexivity|].
  split; [reflexivity|]. split; [reflexivity | discriminate].
Qed.

Lemma atom_sort_follows_index_field_witness :
  exists d,
    parse_atoms_data (FO := Dec.ops)
      [(Some "[Atoms] Angs", Some ["O 3 1 0.0 0.0 0.0"; "H 1 1 0.0 0.0 0.74"])]
      = Ok d /\
    List.length d = 2 /\
    Dict.keys d = ["atom_2"; "atom_0"] /\
    map sort (Dict.values d) = [2; 0]%Z.
Proof.
  destruct (@atom_sort_follows_index_field Dec.ops
              [(Some "[Atoms] Angs", Some ["O 3 1 0.0 0.0 0.0"; "H 1 1 0.0 0.0 0.74"])]
              false ["O 3 1 0.0 0.0 0.0"; "H 1 1 0.0 0.0 0.74"]
              [ @Build_atom_fields Dec.t "O" 3 1
                  (0, -1)%Z (0, -1)%Z (0, -1)%Z (1008, -3)%Z;
                @Build_atom_fields Dec.t "H" 1 1
                  (0, -1)%Z (0, -1)%Z (74, -2)%Z (1008, -3)%Z ])
    as [d [E [L [Kd [Sd _]]]]].
  - split; reflexivity.
  - constructor; [split; reflexivity|].
    constructor; [split; reflexivity|]. constructor.
  - simpl. constructor; [simpl; intuition discriminate|].
    constructor; [simpl; tauto | constructor].
  - exists d. split; [exact E|]. split; [exact L|]. split; [exact Kd | exact Sd].
Defined.

(** ** Unit normalisation *)

Section Units.
Context {FO : FloatOps}.
Variable close : F -> F -> Prop.

Lemma agree_key (b a : string * (AtomData F)) :
  agree_after_conversion close b a -> fst b = fst a.
Proof. intros [E _]. exact E. Qed.

Lemma agree_rekey (k k' : string) (vb va : AtomData F) :
  agree_after_conversion close (k, vb) (k, va) ->
  agree_after_conversion close (k', vb) (k', va).
Proof.
  unfold agree_after_conversion, entries_agree. simpl.
  intros [_ H]. split; [reflexivity | exact H].
Qed.

Lemma set_agree (dB dA : Dict.t string (AtomData F)) (k : string) (vb va : AtomData F) :
  Forall2 (agree_after_conversion close) dB dA ->
  agree_after_conversion close (k, vb) (k, va) ->
  Forall2 (agree_after_conversion close)
          (Dict.set String.eqb dB k vb) (Dict.set String.eqb dA k va).
Proof.
  intros H R. induction H as [|[kb wb] [ka wa] dB dA Hh Ht IH]; simpl.
  - constructor; [exact R | constructor].
  - pose proof (agree_key _ _ Hh) as E. simpl in E. subst ka.
    destruct (String.eqb k kb).
    + constructor; [now apply (agree_rekey k) | assumption].
    + constructor; assumption.
Qed.

Lemma store_all_agree (kvB kvA : list (string * (AtomData F))) :
  Forall2 (agree_after_conversion close) kvB kvA ->
  forall dB dA,
    Forall2 (agree_after_conversion close) dB dA ->
    Forall2 (agree_after_conversion close)
            (store_all String.eqb dB kvB) (store_all String.eqb dA kvA).
Proof.
  induction 1 as [|[kb vb] [ka va] kvB kvA Hh _ IH]; intros dB dA Hd; simpl.
  - exact Hd.
  - apply IH. pose proof (agree_key _ _ Hh) as E. simpl in E. subst ka.
    now apply set_agree.
Qed.

Lemma convert_units_agree (dB dA : Dict.t string (AtomData F)) :
  Forall2 (agree_after_conversion close) dB dA ->
  Forall2 (entries_agree close) (convert_units dB) dA.
Proof.
  induction 1 as [|b a dB dA Hh _ IH]; simpl; constructor; assumption.
Qed.

Lemma line_ok_mass (lines : list string) (ps : list (atom_fields F)) :
  Forall2 atom_line_ok lines ps ->
  Forall (fun p => np_index atomic_masses (a_proton p) = Ok (a_mass p)) ps.
Proof.
  induction 1 as [|l p lines ps [_ M] _ IH]; constructor; assumption.
Qed.

Lemma same_atom_entries (psB psA : list (atom_fields F)) :
  Forall2 (same_atom close) psB psA ->
  Forall (fun p => np_index atomic_masses (a_proton p) = Ok (a_mass p)) psB ->
  Forall (fun p => np_index atomic_masses (a_proton p) = Ok (a_mass p)) psA ->
  Forall2 (agree_after_conversion close) (map atom_entry psB) (map atom_entry psA).
Proof.
  induction 1 as [|pb pa psB psA S _ IH]; intros MB MA; simpl; [constructor|].
  inversion MB as [|? ? Mb MB']; subst. inversion MA as [|? ? Ma MA']; subst.
  constructor; [|now apply IH].
  destruct S as [Es [Ei [Ep [Cx [Cy Cz]]]]].
  unfold agree_after_conversion, entries_agree, atom_entry, atom_key. simpl.
  rewrite Ei, Es. rewrite Ep in Mb. rewrite Mb in Ma. injection Ma as Ma.
  repeat split; try reflexivity; try assumption.
  repeat constructor; assumption.
Qed.

(** Conversion multiplies every component by [Bohr] and nothing else. *)
Lemma convert_units_entry (d : Dict.t string (AtomData F)) (k : string) (a : AtomData F) :
  In (k, a) (convert_units d) ->
  exists a0, In (k, a0) d /\
             coord a = map (fun x => fmul x Bohr) (coord a0) /\
             mass a = mass a0 /\ sort a = sort a0 /\ symbol a = symbol a0.
Proof.
  unfold convert_units. rewrite in_map_iff. intros [[k0 a0] [E I]].
  simpl in E. injection E as <- <-. exists a0. repeat split. exact I.
Qed.

Lemma get_convert_units (d : Dict.t string (AtomData F)) (k : string) :
  Dict.get String.eqb (convert_units d) k =
  option_map (fun a => set_coord a (_bohr_to_ang (coord a)))
             (Dict.get String.eqb d k).
Proof.
  induction d as [|[k' a] d IH]; simpl; [reflexivity|].
  destruct (String.eqb k k'); [reflexivity | exact IH].
Qed.

End Units.

Section UnitsAgree.
Context {FO : FloatOps}.

Lemma same_site_atom (close : F -> F -> Prop) (psB psA : list (atom_fields F)) :
  Forall2 same_site psB psA -> Forall2 (site_close close) psB psA ->
  Forall2 (same_atom close) psB psA.
Proof.
  induction 1 as [|pb pa psB psA [Es [Ei Ep]] _ IH]; intros C; [constructor|].
  inversion C as [|? ? ? ? [Cx [Cy Cz]] C']; subst.
  constructor; [|now apply IH]. repeat split; assumption.
Qed.

Lemma same_site_any (psB psA : list (atom_fields F)) :
  Forall2 same_site psB psA ->
  Forall2 (site_close (fun _ _ => True)) psB psA.
Proof.
  induction 1; constructor; [repeat split | assumption].
Qed.

Lemma same_site_indices (psB psA : list (atom_fields F)) :
  Forall2 same_site psB psA -> map a_index psA = map a_index psB.
Proof.
  induction 1 as [|pb pa psB psA [_ [Ei _]] _ IH]; simpl; [reflexivity|].
  now rewrite Ei, IH.
Qed.

Lemma entries_agree_keys (close : F -> F -> Prop)
  (dB dA : Dict.t string (AtomData F)) :
  Forall2 (entries_agree close) dB dA -> Dict.keys dB = Dict.keys dA.
Proof.
  induction 1 as [|b a dB dA [E _] _ IH]; simpl; [reflexivity|].
  now rewrite E, IH.
Qed.

Lemma last_entry_get (pre post : list (atom_fields F)) (p : atom_fields F) :
  (forall q, In q post -> a_index q <> a_index p) ->
  Dict.get String.eqb
    (store_all String.eqb [] (map atom_entry (pre ++ p :: post))) (atom_key p)
  = Some (snd (atom_entry p)).
Proof.
  intros L. rewrite map_app. simpl.
  apply (store_all_last _ _ _ string_eqb_spec). intros I.
  rewrite map_map in I. apply in_map_iff in I. destruct I as [q [E I]].
  simpl in E. apply atom_key_inj in E. exact (L q I E).
Qed.

Lemma convert_units_entries (ps : list (atom_fields F)) :
  convert_units (map atom_entry ps) = map bohr_entry ps.
Proof.
  unfold convert_units. rewrite map_map. reflexivity.
Qed.

Lemma explicit_agree_inv (close : F -> F -> Prop) (psB psA : list (atom_fields F)) :
  Forall2 same_site psB psA ->
  Forall2 (entries_agree close) (map bohr_entry psB) (map atom_entry psA) ->
  Forall2 (site_close close) psB psA.
Proof.
  induction 1 as [|pb pa psB psA _ _ IH]; simpl; intros A; [constructor|].
  inversion A as [|? ? ? ? [_ [_ [_ [_ C]]]] A']; subst.
  constructor; [|now apply IH].
  simpl in C. inversion C as [|? ? ? ? Cx C1]; subst.
  inversion C1 as [|? ? ? ? Cy C2]; subst.
  inversion C2 as [|? ? ? ? Cz _]; subst.
  repeat split; assumption.
Qed.

(** C9: take two atoms sections that name the same atoms line by line,
    one under the Bohr key and one under the Angstrom key.  Both are
    converted, into mappings with the same keys.  Under the Bohr key
    the record read back for an atom is the one built from its last
    line with each coordinate multiplied by [Bohr]; under the Angstrom
    key it is the one built from its last line, coordinates unchanged.
    Hence, for any measure of closeness, if the Angstrom coordinates
    written are close to the Bohr coordinates written times [Bohr], the
    two results agree entry by entry: same key, sort, mass and symbol,
    and close coordinates.  When the index fields are pairwise distinct
    the two results are exactly the lists of these records in line
    order, and they agree only if the coordinates written were close. *)
Theorem unit_normalisation_agrees
  (close : F -> F -> Prop)
  (rawB rawA : RawData) (linesB linesA : list string)
  (psB psA : list (atom_fields F)) :
  atoms_section rawB true linesB ->
  atoms_section rawA false linesA ->
  Forall2 atom_line_ok linesB psB ->
  Forall2 atom_line_ok linesA psA ->
  Forall2 same_site psB psA ->
  exists dB dA,
    parse_atoms_data rawB = Ok dB /\
    parse_atoms_data rawA = Ok dA /\
    Dict.keys dB = Dict.keys dA /\
    (forall pre p post,
       psB = pre ++ p :: post ->
       (forall q, In q post -> a_index q <> a_index p) ->
       Dict.get String.eqb dB (atom_key p) = Some (bohr_record p)) /\
    (forall pre p post,
       psA = pre ++ p :: post ->
       (forall q, In q post -> a_index q <> a_index p) ->
       Dict.get String.eqb dA (atom_key p) = Some (snd (atom_entry p))) /\
    (Forall2 (site_close close) psB psA ->
     Forall2 (entries_agree close) dB dA) /\
    (NoDup (map a_index psB) ->
     dB = map bohr_entry psB /\ dA = map atom_entry psA /\
     (Forall2 (entries_agree close) dB dA ->
      Forall2 (site_close close) psB psA)).
Proof.
  intros SB SA WB WA S.
  rewrite (parse_atoms_data_section rawB true linesB SB).
  rewrite (parse_atoms_data_section rawA false linesA SA).
  rewrite (atoms_loop_ok linesB psB WB []), (atoms_loop_ok linesA psA WA []).
  cbn [bind]. eexists; eexists.
  split; [reflexivity|]. split; [reflexivity|].
  assert (A : forall c, Forall2 (site_close c) psB psA ->
            Forall2 (entries_agree c)
              (convert_units (store_all String.eqb [] (map atom_entry psB)))
              (store_all String.eqb [] (map atom_entry psA))).
  { intros c C. apply convert_units_agree. apply store_all_agree; [|constructor].
    apply same_atom_entries; [now apply same_site_atom | |].
    - exact (line_ok_mass linesB psB WB).
    - exact (line_ok_mass linesA psA WA). }
  split; [exact (entries_agree_keys _ _ _ (A _ (same_site_any psB psA S)))|].
  split.
  { intros pre p post -> L. rewrite get_convert_units, (last_entry_get pre post p L).
    reflexivity. }
  split; [intros pre p post -> L; exact (last_entry_get pre post p L)|].
  split; [exact (A close)|].
  intros ND.
  assert (NDA : NoDup (map a_index psA)) by now rewrite (same_site_indices psB psA S).
  rewrite !(store_all_fresh _ _ _ string_eqb_spec)
    by (simpl; now apply atom_keys_nodup).
  simpl. rewrite convert_units_entries.
  split; [reflexivity|]. split; [reflexivity|].
  now apply explicit_agree_inv.
Qed.

End UnitsAgree.

Lemma unit_normalisation_agrees_witness :
  exists dB dA,
    parse_atoms_data (FO := Dec.ops)
      [(Some "[Atoms] AU", Some ["H 1 1 0.0 0.0 0.0"; "H 2 1 0.0 0.0 1.4"])]
      = Ok dB /\
    parse_atoms_data (FO := Dec.ops)
      [(Some "[Atoms] Angs", Some ["H 1 1 0.0 0.0 0.0"; "H 2 1 0.0 0.0 0.7408"])]
      = Ok dA /\
    Dict.keys dB = ["atom_0"; "atom_1"] /\
    Dict.get String.eqb dB "atom_1"
      = Some (@Build_AtomData Dec.t
                [(0, -12)%Z; (0, -12)%Z; (740848094938, -12)%Z]
                (1008, -3)%Z 1 "H") /\
    Forall2 (entries_agree (FO := Dec.ops) (Dec.within (1, -4)%Z)) dB dA.
Proof.
  destruct (@unit_normalisation_agrees Dec.ops (Dec.within (1, -4)%Z)
              [(Some "[Atoms] AU", Some ["H 1 1 0.0 0.0 0.0"; "H 2 1 0.0 0.0 1.4"])]
              [(Some "[Atoms] Angs",
                Some ["H 1 1 0.0 0.0 0.0"; "H 2 1 0.0 0.0 0.7408"])]
              ["H 1 1 0.0 0.0 0.0"; "H 2 1 0.0 0.0 1.4"]
              ["H 1 1 0.0 0.0 0.0"; "H 2 1 0.0 0.0 0.7408"]
              [ @Build_atom_fields Dec.t "H" 1 1
                  (0, -1)%Z (0, -1)%Z (0, -1)%Z (1008, -3)%Z;
                @Build_atom_fields Dec.t "H" 2 1
                  (0, -1)%Z (0, -1)%Z (14, -1)%Z (1008, -3)%Z ]
              [ @Build_atom_fields Dec.t "H" 1 1
                  (0, -1)%Z (0, -1)%Z (0, -1)%Z (1008, -3)%Z;
                @Build_atom_fields Dec.t "H" 2 1
                  (0, -1)%Z (0, -1)%Z (7408, -4)%Z (1008, -3)%Z ])
    as [dB [dA [EB [EA [_ [GB [_ [Ag Ex]]]]]]]].
  - reflexivity.
  - split; reflexivity.
  - constructor; [split; reflexivity|].
    constructor; [split; reflexivity | constructor].
  - constructor; [split; reflexivity|].
    constructor; [split; reflexivity | constructor].
  - constructor; [repeat split|]. constructor; [repeat split | constructor].
  - exists dB, dA. split; [exact EB|]. split; [exact EA|].
    assert (ND : NoDup (map (@a_index Dec.t)
                          [ @Build_atom_fields Dec.t "H" 1 1
                              (0, -1)%Z (0, -1)%Z (0, -1)%Z (1008, -3)%Z;
                            @Build_atom_fields Dec.t "H" 2 1
                              (0, -1)%Z (0, -1)%Z (14, -1)%Z (1008, -3)%Z ])).
    { simpl. constructor; [simpl; intuition discriminate|].
      constructor; [simpl; tauto | constructor]. }
    destruct (Ex ND) as [DB _].
    split; [rewrite DB; reflexivity|].
    split.
    + apply (GB [ @Build_atom_fields Dec.t "H" 1 1
                    (0, -1)%Z (0, -1)%Z (0, -1)%Z (1008, -3)%Z ]
                (@Build_atom_fields Dec.t "H" 2 1
                   (0, -1)%Z (0, -1)%Z (14, -1)%Z (1008, -3)%Z) []);
        [reflexivity | intros q []].
    + apply Ag.
      constructor; [repeat split; vm_compute; discriminate|].
      constructor; [repeat split; vm_compute; discriminate | constructor].
Defined.
(** ** The Mode Extractor: grouping of the eigenvector lines *)

Section Displacements.
Context {FO : FloatOps}.

Lemma disp_step_delimiter (st : modes) (line : string) :
  Str.contains "vibration" line = true ->
  disp_step st line =
  Ok {| modes_array := modes_array st ++ pending (current_mode_data st);
        current_mode_data := [] |}.
Proof.
  intros H. unfold disp_step. rewrite H.
  destruct st as [ma [|r cur]]; simpl; [|reflexivity].
  now rewrite app_nil_r.
Qed.

Lemma disp_step_row (st : modes) (line : string) (v : F * F * F) :
  row_ok line v ->
  disp_step st line =
  Ok {| modes_array := modes_array st;
        current_mode_data := current_mode_data st ++ [row6 v] |}.
Proof.
  intros [H [tx [ty [tz [S [X [Y Z]]]]]]]. unfold disp_step, float.
  rewrite H, S, X, Y, Z. destruct v as [[x y] z]. reflexivity.
Qed.

Lemma disp_loop_rows (es : list (string * (F * F * F))) (rest : list string) :
  Forall (fun e => row_ok (fst e) (snd e)) es ->
  forall ma cur,
    disp_loop {| modes_array := ma; current_mode_data := cur |}
              (map fst es ++ rest) =
    disp_loop {| modes_array := ma;
                 current_mode_data := cur ++ map (fun e => row6 (snd e)) es |}
              rest.
Proof.
  induction 1 as [|e es He _ IH]; intros ma cur; simpl.
  - now rewrite app_nil_r.
  - rewrite (disp_step_row _ _ _ He). simpl. rewrite IH, <- app_assoc.
    reflexivity.
Qed.

Lemma disp_loop_group (K : nat) (g : group) (rest : list string) :
  group_ok K g ->
  forall ma cur,
    disp_loop {| modes_array := ma; current_mode_data := cur |}
              (group_lines g ++ rest) =
    disp_loop {| modes_array := ma ++ pending cur;
                 current_mode_data := group_rows g |} rest.
Proof.
  intros [D [_ R]] ma cur. unfold group_lines. simpl.
  rewrite (disp_step_delimiter _ _ D). simpl.
  rewrite (disp_loop_rows _ rest R). reflexivity.
Qed.

Lemma group_rows_length (K : nat) (g : group) :
  group_ok K g -> List.length (group_rows g) = K.
Proof.
  intros [_ [L _]]. unfold group_rows. now rewrite length_map.
Qed.

Lemma pending_rows (K : nat) (g : group) :
  group_ok K g -> 0 < K -> pending (group_rows g) = [group_rows g].
Proof.
  intros G P. pose proof (group_rows_length K g G) as L.
  destruct (group_rows g); simpl in *; [lia | reflexivity].
Qed.

(** Groups with at least one row each are collected one per group, in
    order. *)
Lemma disp_loop_groups (K : nat) (gs : list group) :
  0 < K -> Forall (group_ok K) gs -> gs <> [] ->
  forall ma cur, exists st,
    disp_loop {| modes_array := ma; current_mode_data := cur |}
              (coord_section gs) = Ok st /\
    collected st = ma ++ pending cur ++ map group_rows gs.
Proof.
  intros P H. induction H as [|g gs G Gs IH]; intros N ma cur; [congruence|].
  unfold coord_section. cbn [flat_map]. rewrite (disp_loop_group K g _ G).
  destruct gs as [|g' gs'].
  - simpl. eexists; split; [reflexivity|].
    unfold collected. simpl. now rewrite <- app_assoc.
  - destruct (IH ltac:(discriminate) (ma ++ pending cur) (group_rows g))
      as [st [E C]].
    exists st. split; [exact E|]. rewrite C, (pending_rows K g G P).
    rewrite <- app_assoc. reflexivity.
Qed.

(** Groups without rows leave the state as it is. *)
Lemma disp_loop_empty_groups (gs : list group) :
  Forall (group_ok 0) gs ->
  forall ma,
    disp_loop {| modes_array := ma; current_mode_data := [] |}
              (coord_section gs)
    = Ok {| modes_array := ma; current_mode_data := [] |}.
Proof.
  induction 1 as [|g gs G _ IH]; intros ma; [reflexivity|].
  unfold coord_section. cbn [flat_map]. rewrite (disp_loop_group 0 g _ G).
  simpl. rewrite app_nil_r.
  pose proof (group_rows_length 0 g G) as L.
  destruct (group_rows g); [apply IH | discriminate L].
Qed.

Lemma np_asarray_rect (K : nat) (a : list (list (list F))) :
  Forall (fun r => List.length r = K) a -> np_asarray a = Ok a.
Proof.
  intros H. unfold np_asarray. destruct a as [|r a']; [reflexivity|].
  assert (Lr : List.length r = K) by now inversion H.
  replace (forallb _ (r :: a')) with true; [reflexivity|].
  symmetry. apply forallb_forall. intros x I.
  rewrite Forall_forall in H. rewrite (H x I), Lr. apply Nat.eqb_refl.
Qed.

(** The result on a section of groups with [K > 0] rows each. *)
Lemma parse_displacements_groups (raw : RawData) (K : nat) (gs : list group) :
  raw_get raw "[FR-NORM-COORD]" = Some (Some (coord_section gs)) ->
  0 < K -> Forall (group_ok K) gs -> gs <> [] ->
  _parse_displacements raw = Ok [transpose [] (map group_rows gs)].
Proof.
  intros R P G N. unfold _parse_displacements.
  unfold raw_get in R. unfold raw_lookup, Dict.lookup. rewrite R. simpl.
  destruct (disp_loop_groups K gs P G N [] []) as [st [E C]].
  unfold modes_init. rewrite E. simpl.
  unfold collected in C. simpl in C. rewrite C.
  rewrite (np_asarray_rect K); [reflexivity|].
  apply Forall_forall. intros r I. apply in_map_iff in I.
  destruct I as [g [<- I]]. apply (group_rows_length K).
  rewrite Forall_forall in G. now apply G.
Qed.

(** The result on a section of groups without rows. *)
Lemma parse_displacements_empty_groups (raw : RawData) (gs : list group) :
  raw_get raw "[FR-NORM-COORD]" = Some (Some (coord_section gs)) ->
  Forall (group_ok 0) gs ->
  _parse_displacements raw = Ok [[]].
Proof.
  intros R G. unfold _parse_displacements.
  unfold raw_get in R. unfold raw_lookup, Dict.lookup. rewrite R. simpl.
  unfold modes_init. rewrite (disp_loop_empty_groups gs G []). reflexivity.
Qed.

End Displacements.

(** ** The Mode Extractor: the axis exchange *)

Lemma mapM_length {A B} (f : A -> result B) (l : list A) (bs : list B) :
  mapM f l = Ok bs -> List.length bs = List.length l.
Proof.
  revert bs. induction l as [|a l IH]; simpl; intros bs H.
  - injection H as <-. reflexivity.
  - destruct (f a) as [b|e]; simpl in H; [|discriminate H].
    destruct (mapM f l) as [bs'|e]; simpl in H; [|discriminate H].
    injection H as <-. simpl. f_equal. now apply IH.
Qed.

Lemma transpose_length {A} (dflt : A) (K : nat) (rows : list (list A)) :
  rows <> [] -> Forall (fun r => List.length r = K) rows ->
  List.length (transpose dflt rows) = K.
Proof.
  intros N H. destruct rows as [|r rows]; [congruence|].
  unfold transpose. rewrite length_map, length_seq. now inversion H.
Qed.

Lemma transpose_nth_error {A} (dflt : A) (K a : nat) (rows : list (list A)) :
  rows <> [] -> Forall (fun r => List.length r = K) rows -> a < K ->
  nth_error (transpose dflt rows) a = Some (map (fun row => nth a row dflt) rows).
Proof.
  intros N H L. destruct rows as [|r rows]; [congruence|].
  unfold transpose. rewrite nth_error_map, nth_error_seq.
  assert (Lr : List.length r = K) by now inversion H.
  rewrite Lr. destruct (Nat.ltb_spec a K); [reflexivity | lia].
Qed.

Lemma transpose_columns {A} (dflt : A) (K : nat) (rows : list (list A)) :
  rows <> [] -> Forall (fun r => List.length r = K) rows ->
  Forall (fun col => exists a, a < K /\ col = map (fun row => nth a row dflt) rows)
         (transpose dflt rows).
Proof.
  intros N H. destruct rows as [|r rows]; [congruence|].
  unfold transpose. apply Forall_forall. intros col I.
  apply in_map_iff in I. destruct I as [a [<- I]]. apply in_seq in I.
  exists a. split; [|reflexivity].
  assert (Lr : List.length r = K) by now inversion H. lia.
Qed.

Section Axes.
Context {FO : FloatOps}.

Lemma row6_odd_zero (v : F * F * F) : odd_zero (row6 v).
Proof. destruct v as [[x y] z]. repeat split. Qed.

Lemma group_rows_nth (g : group) (a : nat) (e : string * (F * F * F)) (dflt : list F) :
  nth_error (snd g) a = Some e -> nth a (group_rows g) dflt = row6 (snd e).
Proof.
  intros H. apply nth_error_nth. unfold group_rows.
  exact (map_nth_error (fun e0 => row6 (snd e0)) a (snd g) H).
Qed.

Lemma rows_rect (K : nat) (gs : list group) :
  Forall (group_ok K) gs ->
  Forall (fun r => List.length r = K) (map group_rows gs).
Proof.
  intros G. apply Forall_map. eapply Forall_impl; [|exact G].
  intros g. apply group_rows_length.
Qed.

Lemma rows_nonempty (gs : list group) : gs <> [] -> map group_rows gs <> [].
Proof. destruct gs; [congruence | discriminate]. Qed.

(** C1: for a normal-coordinates section made of M mode groups of K
    well-formed atom lines each, the entry [[0][a][m]] of the array
    returned is [[x, 0, y, 0, z, 0]] for the three numbers [x y z] read
    from atom line [a] of mode group [m]: the outer axis has length one,
    the next axis runs over atoms and the one after over modes. *)
Theorem displacement_axis_swap
  (raw : RawData) (K m a : nat) (gs : list group) (g : group)
  (line : string) (x y z : F) :
  raw_get raw "[FR-NORM-COORD]" = Some (Some (coord_section gs)) ->
  Forall (group_ok K) gs ->
  nth_error gs m = Some g ->
  nth_error (snd g) a = Some (line, (x, y, z)) ->
  exists res atoms ms,
    _parse_displacements raw = Ok res /\
    res = [atoms] /\
    List.length atoms = K /\
    nth_error atoms a = Some ms /\
    List.length ms = List.length gs /\
    nth_error ms m = Some [x; fzero; y; fzero; z; fzero].
Proof.
  intros R G Hm Ha.
  assert (N : gs <> []) by (destruct gs; [destruct m; discriminate Hm | discriminate]).
  assert (Lg : List.length (snd g) = K).
  { apply nth_error_In in Hm. rewrite Forall_forall in G.
    now destruct (G g Hm) as [_ [L _]]. }
  assert (La : a < K).
  { rewrite <- Lg. apply nth_error_Some. rewrite Ha. discriminate. }
  assert (P : 0 < K) by lia.
  exists [transpose [] (map group_rows gs)], (transpose [] (map group_rows gs)),
         (map (fun row => nth a row []) (map group_rows gs)).
  split; [now apply (parse_displacements_groups raw K gs)|].
  split; [reflexivity|].
  split; [apply transpose_length; [now apply rows_nonempty | now apply rows_rect]|].
  split; [apply (transpose_nth_error [] K);
          [now apply rows_nonempty | now apply rows_rect | exact La]|].
  split; [now rewrite !length_map|].
  rewrite map_map.
  rewrite (map_nth_error (fun g0 => nth a (group_rows g0) []) m gs Hm).
  rewrite (group_rows_nth g a (line, (x, y, z)) [] Ha). reflexivity.
Qed.

Lemma transposed_shape (K : nat) (gs : list group) :
  0 < K -> Forall (group_ok K) gs -> gs <> [] ->
  shape_1KM6 K (List.length gs) [transpose [] (map group_rows gs)].
Proof.
  intros P G N. split; [reflexivity|]. constructor; [|constructor].
  split; [apply transpose_length; [now apply rows_nonempty | now apply rows_rect]|].
  pose proof (transpose_columns [] K (map group_rows gs)
                (rows_nonempty gs N) (rows_rect K gs G)) as C.
  eapply Forall_impl; [|exact C].
  intros col [a [La ->]]. split; [now rewrite !length_map|].
  rewrite map_map. apply Forall_map. eapply Forall_impl; [|exact G].
  intros g [_ [Lg _]].
  destruct (nth_error (snd g) a) as [e|] eqn:E.
  - rewrite (group_rows_nth g a e [] E). apply row6_odd_zero.
  - apply nth_error_None in E. lia.
Qed.

Lemma empty_shape (M : nat) : shape_1KM6 0 M [[]].
Proof.
  split; [reflexivity|]. constructor; [|constructor].
  split; [reflexivity | constructor].
Qed.

(** C5: for a normal-coordinates section made of M >= 1 mode groups of
    K well-formed atom lines each, the array returned has shape
    [[1][K][M][6]] and the components at positions 1, 3 and 5 are zero
    everywhere. *)
Theorem displacement_shape (raw : RawData) (K : nat) (gs : list group) :
  raw_get raw "[FR-NORM-COORD]" = Some (Some (coord_section gs)) ->
  Forall (group_ok K) gs ->
  gs <> [] ->
  exists res,
    _parse_displacements raw = Ok res /\
    shape_1KM6 K (List.length gs) res.
Proof.
  intros R G N. destruct K as [|K'].
  - exists [[]]. split.
    + now apply (parse_displacements_empty_groups raw gs).
    + apply empty_shape.
  - exists [transpose [] (map group_rows gs)]. split.
    + apply (parse_displacements_groups raw (S K') gs); auto; lia.
    + apply transposed_shape; auto; lia.
Qed.

(** C8 (as amended): the Mode Extractor makes no comparison of counts:
    whenever the frequency section parses to some frequencies and the
    normal-coordinates section is made of M >= 1 groups of K well-formed
    atom lines, it returns a record holding exactly those frequencies
    and a displacement array of shape [[1][K][M][6]], whether or not the
    number of frequencies equals M. *)
Theorem k_points_without_count_check
  (raw : RawData) (K : nat) (gs : list group)
  (freq_lines : list string) (fs : list F) :
  raw_get raw "[FREQ]" = Some (Some freq_lines) ->
  mapM float freq_lines = Ok fs ->
  raw_get raw "[FR-NORM-COORD]" = Some (Some (coord_section gs)) ->
  Forall (group_ok K) gs ->
  gs <> [] ->
  exists kp,
    parse_k_points_data raw = Ok kp /\
    frequencies kp = [fs] /\
    List.length fs = List.length freq_lines /\
    shape_1KM6 K (List.length gs) (atomic_displacements kp) /\
    weights kp = [fone] /\
    k_vectors kp = [[fzero; fzero; fzero]].
Proof.
  intros Rf Mf R G N. unfold parse_k_points_data.
  unfold raw_get in Rf. unfold raw_lookup at 1, Dict.lookup. rewrite Rf. simpl.
  rewrite Mf. simpl.
  assert (D : exists res, _parse_displacements raw = Ok res /\
                          shape_1KM6 K (List.length gs) res).
  { destruct (Nat.eq_dec K 0) as [->|P].
    - exists [[]]. split; [|apply empty_shape].
      now apply (parse_displacements_empty_groups raw gs).
    - exists [transpose [] (map group_rows gs)].
      split; [|apply transposed_shape; auto; lia].
      apply (parse_displacements_groups raw K gs); auto; lia. }
  destruct D as [res [E S]]. rewrite E. simpl.
  eexists. split; [reflexivity|]. simpl.
  split; [reflexivity|].
  split; [exact (mapM_length float freq_lines fs Mf)|].
  split; [exact S|]. split; reflexivity.
Qed.

End Axes.

(** ** Concrete sections *)

Lemma displacement_axis_swap_witness :
  exists res atoms ms,
    _parse_displacements (FO := Dec.ops)
      [(Some "[FR-NORM-COORD]",
        Some ["vibration 1"; "0.5 0.0 0.0"; "1.0 2.0 3.0"; "0.0 0.5 0.0";
              "vibration 2"; "0.0 0.0 0.5"; "0.5 0.5 0.0"; "0.0 0.5 0.5"])]
      = Ok res /\
    res = [atoms] /\
    List.length atoms = 3 /\
    nth_error atoms 1 = Some ms /\
    List.length ms = 2 /\
    nth_error ms 0
      = Some [(10, -1)%Z; (0, 0)%Z; (20, -1)%Z; (0, 0)%Z; (30, -1)%Z; (0, 0)%Z].
Proof.
  apply (@displacement_axis_swap Dec.ops
           [(Some "[FR-NORM-COORD]",
             Some ["vibration 1"; "0.5 0.0 0.0"; "1.0 2.0 3.0"; "0.0 0.5 0.0";
                   "vibration 2"; "0.0 0.0 0.5"; "0.5 0.5 0.0"; "0.0 0.5 0.5"])]
           3 0 1
           [("vibration 1",
             [("0.5 0.0 0.0", ((5, -1), (0, -1), (0, -1))%Z);
              ("1.0 2.0 3.0", ((10, -1), (20, -1), (30, -1))%Z);
              ("0.0 0.5 0.0", ((0, -1), (5, -1), (0, -1))%Z)]);
            ("vibration 2",
             [("0.0 0.0 0.5", ((0, -1), (0, -1), (5, -1))%Z);
              ("0.5 0.5 0.0", ((5, -1), (5, -1), (0, -1))%Z);
              ("0.0 0.5 0.5", ((0, -1), (5, -1), (5, -1))%Z)])]
           ("vibration 1",
             [("0.5 0.0 0.0", ((5, -1), (0, -1), (0, -1))%Z);
              ("1.0 2.0 3.0", ((10, -1), (20, -1), (30, -1))%Z);
              ("0.0 0.5 0.0", ((0, -1), (5, -1), (0, -1))%Z)])
           "1.0 2.0 3.0" (10, -1)%Z (20, -1)%Z (30, -1)%Z).
  - reflexivity.
  - constructor; [group_holds|]. constructor; [group_holds | constructor].
  - reflexivity.
  - reflexivity.
Defined.

Lemma displacement_shape_witness :
  exists res,
    _parse_displacements (FO := Dec.ops)
      [(Some "[FR-NORM-COORD]",
        Some ["vibration 1"; "0.0 0.0 0.1"; "0.0 0.0 -0.1"])] = Ok res /\
    shape_1KM6 (FO := Dec.ops) 2 1 res.
Proof.
  apply (@displacement_shape Dec.ops
           [(Some "[FR-NORM-COORD]",
             Some ["vibration 1"; "0.0 0.0 0.1"; "0.0 0.0 -0.1"])]
           2
           [("vibration 1",
             [("0.0 0.0 0.1", ((0, -1), (0, -1), (1, -1))%Z);
              ("0.0 0.0 -0.1", ((0, -1), (0, -1), (-1, -1))%Z)])]).
  - reflexivity.
  - constructor; [group_holds | constructor].
  - discriminate.
Defined.

(** C8 (counterexample): two frequencies next to a single mode group
    are accepted: a record comes back with two frequencies and a mode
    axis of length one, and no error is raised. *)
Lemma k_points_count_mismatch_accepted :
  exists kp,
    parse_k_points_data (FO := Dec.ops)
      [(Some "[FREQ]", Some ["1000.0"; "2000.0"]);
       (Some "[FR-NORM-COORD]", Some ["vibration 1"; "0.0 0.0 0.1"])] = Ok kp /\
    map (@List.length _) (frequencies kp) = [2] /\
    map (map (@List.length _)) (atomic_displacements kp) = [[1]].
Proof.
  eexists. split; [reflexivity|]. split; reflexivity.
Qed.

Lemma k_points_without_count_check_witness :
  exists kp,
    parse_k_points_data (FO := Dec.ops)
      [(Some "[FREQ]", Some ["1000.0"; "2000.0"; "3000.0"]);
       (Some "[FR-NORM-COORD]", Some ["vibration 1"; "0.0 0.0 0.1"])] = Ok kp /\
    frequencies kp = [[(10000, -1)%Z; (20000, -1)%Z; (30000, -1)%Z]] /\
    shape_1KM6 (FO := Dec.ops) 1 1 (atomic_displacements kp).
Proof.
  destruct (@k_points_without_count_check Dec.ops
              [(Some "[FREQ]", Some ["1000.0"; "2000.0"; "3000.0"]);
               (Some "[FR-NORM-COORD]", Some ["vibration 1"; "0.0 0.0 0.1"])]
              1
              [("vibration 1", [("0.0 0.0 0.1", ((0, -1), (0, -1), (1, -1))%Z)])]
              ["1000.0"; "2000.0"; "3000.0"]
              [(10000, -1)%Z; (20000, -1)%Z; (30000, -1)%Z])
    as [kp [E [Fq [_ [S _]]]]].
  - reflexivity.
  - reflexivity.
  - reflexivity.
  - constructor; [group_holds | constructor].
  - discriminate.
  - exists kp. split; [exact E|]. split; [exact Fq | exact S].
Defined.

(** * Further properties of the code *)

(** ** Stripping and header recognition *)

Lemma lstrip_no_space (s : string) : starts_space (Str.lstrip s) = false.
Proof.
  induction s as [|c s IH]; simpl; [reflexivity|].
  destruct (Str.isspace c) eqn:E; [exact IH | simpl; exact E].
Qed.

Lemma lstrip_fixed (s : string) : starts_space s = false -> Str.lstrip s = s.
Proof. destruct s as [|c s]; simpl; [reflexivity | intros ->; reflexivity]. Qed.

Lemma rstrip_idempotent (s : string) : Str.rstrip (Str.rstrip s) = Str.rstrip s.
Proof.
  induction s as [|c s IH]; simpl; [reflexivity|].
  destruct (Str.rstrip s) as [|c' t] eqn:R.
  - destruct (Str.isspace c) eqn:E; simpl; [reflexivity | now rewrite E].
  - simpl in IH |- *. rewrite IH. reflexivity.
Qed.

Lemma rstrip_keeps_start (s : string) :
  starts_space s = false -> starts_space (Str.rstrip s) = false.
Proof.
  destruct s as [|c s]; simpl; [reflexivity|]. intros E.
  destruct (Str.rstrip s); [rewrite E|]; simpl; exact E.
Qed.

(** [strip] removes all the whitespace at both ends, so stripping twice
    is stripping once. *)
Lemma strip_idempotent (s : string) : Str.strip (Str.strip s) = Str.strip s.
Proof.
  unfold Str.strip.
  rewrite (lstrip_fixed (Str.rstrip (Str.lstrip s))).
  - apply rstrip_idempotent.
  - apply rstrip_keeps_start, lstrip_no_space.
Qed.

Lemma skip_class_split (s : string) :
  exists w, s = (w ++ Re.skip_class s)%string /\ chars_in_class w.
Proof.
  induction s as [|c s [w [E W]]]; simpl.
  - exists EmptyString. split; [reflexivity | constructor].
  - destruct (Re.in_class c) eqn:C.
    + exists (String c w). split; [simpl; now rewrite <- E|].
      unfold chars_in_class. simpl. constructor; assumption.
    + exists EmptyString. split; [reflexivity | constructor].
Qed.

Lemma skip_class_run (w rest : string) :
  chars_in_class w ->
  Re.skip_class (w ++ String "]"%char rest) = String "]"%char rest.
Proof.
  unfold chars_in_class. induction w as [|c w IH]; simpl; intros H.
  - reflexivity.
  - inversion H as [|? ? C H']; subst. rewrite C. now apply IH.
Qed.

Lemma header_match_inv (line : string) :
  Re.header_match line = true ->
  exists c s r,
    line = String "["%char (String c s) /\ Re.in_class c = true /\
    Re.skip_class s = String "]"%char r.
Proof.
  destruct line as [|b [|c s]]; [discriminate| |].
  - destruct b as [[] [] [] [] [] [] [] []]; discriminate.
  - intros H.
    assert (B : b = "["%char).
    { destruct b as [[] [] [] [] [] [] [] []]; try discriminate H; reflexivity. }
    subst b. simpl in H.
    destruct (Re.in_class c) eqn:C; [|discriminate H].
    destruct (Re.skip_class s) as [|d r] eqn:S; [discriminate H|].
    assert (D : d = "]"%char).
    { destruct d as [[] [] [] [] [] [] [] []]; try discriminate H; reflexivity. }
    subst d. exists c, s, r. repeat split; assumption.
Qed.

(** X1: the header pattern accepts exactly the lines that start with an
    opening bracket, a non-empty run of word characters and hyphens, and
    a closing bracket; whatever follows the closing bracket is free. *)
Theorem header_match_language (line : string) :
  Re.header_match line = true <->
  exists w rest,
    w <> EmptyString /\ chars_in_class w /\
    line = (String "["%char w ++ String "]"%char rest)%string.
Proof.
  split.
  - intros H. destruct (header_match_inv line H) as [c [s [r [-> [C S]]]]].
    destruct (skip_class_split s) as [w [E W]]. rewrite S in E.
    exists (String c w), r. split; [discriminate|].
    split; [unfold chars_in_class; simpl; constructor; assumption|].
    simpl. now rewrite <- E.
  - intros [w [rest [N [W ->]]]]. destruct w as [|c w]; [congruence|].
    unfold chars_in_class in W. simpl in W.
    inversion W as [|? ? C W']; subst.
    simpl. rewrite C. now rewrite (skip_class_run w rest W').
Qed.

(** ** The Block Reader: outcome and invariant of the mapping *)

Section DictEntries.
Variables K V : Type.
Variable eqb : K -> K -> bool.
Hypothesis eqb_spec : forall a b, reflect (a = b) (eqb a b).

Lemma set_entries (d : Dict.t K V) k v e :
  In e (Dict.set eqb d k v) -> In e d \/ e = (k, v).
Proof.
  induction d as [|[k' v'] d IH]; simpl.
  - intros [<-|[]]. now right.
  - destruct (eqb_spec k k') as [->|N]; simpl.
    + intros [<-|I]; [now right | left; now right].
    + intros [<-|I]; [left; now left|].
      destruct (IH I) as [I'|E]; [left; now right | now right].
Qed.

Lemma store_all_entries (kvs : list (K * V)) (d : Dict.t K V) e :
  In e (store_all eqb d kvs) -> In e d \/ In e kvs.
Proof.
  revert d. induction kvs as [|[k v] kvs IH]; simpl; intros d I; [now left|].
  destruct (IH _ I) as [I'|I']; [|right; now right].
  destruct (set_entries _ _ _ _ I') as [I2 | ->]; [now left | right; now left].
Qed.

(** Without repeated keys, reading a key back is membership. *)
Lemma get_in (d : Dict.t K V) k v :
  NoDup (Dict.keys d) -> (Dict.get eqb d k = Some v <-> In (k, v) d).
Proof.
  induction d as [|[k' v'] d IH]; simpl; intros ND.
  - split; [discriminate | tauto].
  - inversion ND as [|? ? N ND']; subst.
    destruct (eqb_spec k k') as [->|Nk].
    + split.
      * intros E. injection E as <-. now left.
      * intros [E|I]; [now injection E as <-|].
        exfalso. apply N. apply in_map_iff. now exists (k', v).
    + rewrite (IH ND'). split; [tauto|].
      intros [E|I]; [congruence | exact I].
Qed.
End DictEntries.

Lemma sections_entries (P Q : string -> Prop) (ls : list string) :
  Forall (fun l => if Re.header_match l then Q l else P l) ls ->
  forall h blk,
    Q h -> Forall P blk ->
    Forall (fun kv => exists h' blk',
                kv = (Some h', Some blk') /\ Q h' /\ Forall P blk')
           (sections h blk ls).
Proof.
  induction 1 as [|l ls Hl _ IH]; intros h blk Qh Pb; simpl.
  - constructor; [|constructor]. now exists h, blk.
  - destruct (Re.header_match l).
    + constructor; [now exists h, blk|]. apply IH; [exact Hl | constructor].
    + apply IH; [exact Qh|]. apply Forall_app. split; [exact Pb|].
      constructor; [exact Hl | constructor].
Qed.

(** X2: the Block Reader returns a mapping exactly when the stream is empty
    or opens with a header line; its only failure is the append to the
    uninitialised block. *)
Theorem read_blocks_outcome (fd : list string) :
  ((exists d, _read_blocks fd = Ok d) <->
   (fd = [] \/
    exists l fd', fd = l :: fd' /\ Re.header_match (Str.strip l) = true)) /\
  (forall e, _read_blocks fd = Err e -> e = AttributeError) /\
  (fd = [] -> _read_blocks fd = Ok [(None, None)]).
Proof.
  destruct fd as [|l fd].
  - split; [split; [now left | intros _; now eexists]|].
    split; [discriminate | reflexivity].
  - destruct (Re.header_match (Str.strip l)) eqn:H.
    + rewrite (read_blocks_sections l fd H).
      split; [split; [intros _; right; now exists l, fd | intros _; now eexists]|].
      split; discriminate.
    + assert (E : _read_blocks (l :: fd) = Err AttributeError).
      { unfold _read_blocks. simpl. unfold read_step. rewrite H. reflexivity. }
      rewrite E. split.
      * split; [intros [d D]; discriminate D|].
        intros [D|[l' [fd' [D H']]]]; [discriminate D|].
        injection D as <- <-. congruence.
      * split; [intros e Ee; now injection Ee as <- | discriminate].
Qed.

(** X3: whatever a non-empty stream holds, the mapping returned has no
    repeated key; every key is a stripped header line of the stream and
    every block holds stripped content lines of the stream only. *)
Theorem read_blocks_invariant (fd : list string) (d : RawData) :
  fd <> [] ->
  _read_blocks fd = Ok d ->
  NoDup (Dict.keys d) /\
  Forall (fun kv => exists h blk,
              kv = (Some h, Some blk) /\
              (Re.header_match h = true /\ In h (map Str.strip fd) /\
               Str.strip h = h) /\
              Forall (fun l => Re.header_match l = false /\
                               In l (map Str.strip fd) /\ Str.strip l = l) blk)
         d.
Proof.
  intros N E. destruct fd as [|l fd]; [congruence|].
  destruct (Re.header_match (Str.strip l)) eqn:H.
  - rewrite (read_blocks_sections l fd H) in E. injection E as <-.
    split; [apply (store_all_nodup _ _ _ key_eqb_spec); constructor|].
    apply Forall_forall. intros e I.
    apply (store_all_entries _ _ _ key_eqb_spec) in I.
    destruct I as [[]|I].
    revert e I. apply Forall_forall.
    apply (sections_entries
             (fun x => Re.header_match x = false /\
                       In x (map Str.strip (l :: fd)) /\ Str.strip x = x)
             (fun x => Re.header_match x = true /\
                       In x (map Str.strip (l :: fd)) /\ Str.strip x = x)).
    + apply Forall_forall. intros x Ix.
      assert (Sx : Str.strip x = x).
      { apply in_map_iff in Ix. destruct Ix as [y [<- _]].
        apply strip_idempotent. }
      destruct (Re.header_match x); (split; [reflexivity|]);
        (split; [simpl; now right | exact Sx]).
    + split; [exact H|]. split; [simpl; now left | apply strip_idempotent].
    + constructor.
  - exfalso. unfold _read_blocks in E. simpl in E. unfold read_step in E.
    rewrite H in E. discriminate E.
Qed.

Lemma read_blocks_invariant_witness :
  NoDup (Dict.keys [(Some "[FREQ]", Some ["2.0"]); (Some "[Title]", Some ["x y"])]).
Proof.
  apply (read_blocks_invariant
           ["[FREQ]"; " 1.0"; "[Title]"; " x y "; "[FREQ] "; "2.0 "]
           [(Some "[FREQ]", Some ["2.0"]); (Some "[Title]", Some ["x y"])]).
  - discriminate.
  - reflexivity.
Defined.

(** ** The Geometry Extractor: invariant, overwriting, failures *)

Section GeometryMore.
Context {FO : FloatOps}.

Lemma atom_step_inv (d d' : Dict.t string (AtomData F)) (line : string) :
  atom_step d line = Ok d' ->
  exists k a,
    d' = Dict.set String.eqb d k a /\
    k = ("atom_" ++ Str.of_Z (sort a))%string /\
    List.length (coord a) = 3.
Proof.
  unfold atom_step.
  destruct (_parse_atom_line line) as [[[[[[sym idx] pn] x] y] z]|e];
    simpl; [|discriminate].
  destruct (np_index atomic_masses pn) as [m|e]; simpl; [|discriminate].
  intros E. injection E as <-. eexists; eexists.
  split; [reflexivity|]. split; reflexivity.
Qed.

Lemma atom_step_error_indep (d d' : Dict.t string (AtomData F)) (line : string) (e : exn) :
  atom_step d line = Err e -> atom_step d' line = Err e.
Proof.
  unfold atom_step.
  destruct (_parse_atom_line line) as [[[[[[sym idx] pn] x] y] z]|e'];
    simpl; [|exact (fun H => H)].
  destruct (np_index atomic_masses pn) as [m|e']; simpl;
    [discriminate | exact (fun H => H)].
Qed.

Lemma atoms_loop_app (l1 l2 : list string) (d : Dict.t string (AtomData F)) :
  atoms_loop d (l1 ++ l2) = (d' <- atoms_loop d l1 ;; atoms_loop d' l2).
Proof.
  revert d. induction l1 as [|l l1 IH]; intros d; simpl; [reflexivity|].
  destruct (atom_step d l) as [d1|e]; simpl; [apply IH | reflexivity].
Qed.

Lemma atoms_loop_inv (P : string * AtomData F -> Prop) (lines : list string) :
  (forall k a, k = ("atom_" ++ Str.of_Z (sort a))%string ->
               List.length (coord a) = 3 -> P (k, a)) ->
  forall d d',
    atoms_loop d lines = Ok d' ->
    NoDup (Dict.keys d) -> Forall P d ->
    NoDup (Dict.keys d') /\ Forall P d'.
Proof.
  intros HP. induction lines as [|l lines IH]; simpl; intros d d' E ND Fd.
  - injection E as <-. now split.
  - destruct (atom_step d l) as [d1|e] eqn:S; simpl in E; [|discriminate E].
    destruct (atom_step_inv d d1 l S) as [k [a [-> [Ek La]]]].
    apply (IH _ _ E).
    + now apply (keys_set_nodup _ _ _ string_eqb_spec).
    + apply Forall_forall. intros kv I.
      destruct (set_entries _ _ _ string_eqb_spec _ _ _ _ I) as [I'| ->].
      * rewrite Forall_forall in Fd. now apply Fd.
      * now apply HP.
Qed.

Lemma parse_atoms_data_inv (raw : RawData) (d : Dict.t string (AtomData F)) :
  parse_atoms_data raw = Ok d ->
  exists bohr lines d0,
    atoms_loop [] lines = Ok d0 /\
    d = (if bohr : bool then convert_units d0 else d0).
Proof.
  unfold parse_atoms_data.
  destruct (raw_mem raw "[Atoms] AU").
  - destruct (raw_lookup raw "[Atoms] AU") as [v|e]; simpl; [|discriminate].
    destruct (iter v) as [lines|e]; simpl; [|discriminate].
    destruct (atoms_loop [] lines) as [d0|e] eqn:L; simpl; [|discriminate].
    intros E. injection E as <-. now exists true, lines, d0.
  - destruct (raw_lookup raw "[Atoms] Angs") as [v|e]; simpl; [|discriminate].
    destruct (iter v) as [lines|e]; simpl; [|discriminate].
    destruct (atoms_loop [] lines) as [d0|e] eqn:L; simpl; [|discriminate].
    intros E. injection E as <-. now exists false, lines, d0.
Qed.

Lemma keyed_by_sort_nodup (d : Dict.t string (AtomData F)) :
  NoDup (Dict.keys d) ->
  Forall (fun kv => fst kv = ("atom_" ++ Str.of_Z (sort (snd kv)))%string) d ->
  NoDup (map (fun kv => sort (snd kv)) d).
Proof.
  induction d as [|[k a] d IH]; simpl; intros ND Fd; [constructor|].
  inversion ND as [|? ? N ND']; subst. inversion Fd as [|? ? Ek Fd']; subst.
  constructor; [|now apply IH].
  intros I. apply N. apply in_map_iff in I. destruct I as [[k' a'] [Es I]].
  simpl in Es, Ek. apply in_map_iff. exists (k', a'). split; [|exact I].
  rewrite Forall_forall in Fd'. rewrite (Fd' _ I). simpl.
  rewrite Ek, Es. reflexivity.
Qed.

(** X6: whatever the block set holds, a mapping returned by the Geometry
    Extractor has no repeated key and no repeated sort value; each record
    is stored under [atom_<sort>] and has exactly three coordinates. *)
Theorem atoms_data_invariant (raw : RawData) (d : Dict.t string (AtomData F)) :
  parse_atoms_data raw = Ok d ->
  NoDup (Dict.keys d) /\
  NoDup (map (fun kv => sort (snd kv)) d) /\
  Forall (fun kv => fst kv = ("atom_" ++ Str.of_Z (sort (snd kv)))%string /\
                    List.length (coord (snd kv)) = 3) d.
Proof.
  intros E. destruct (parse_atoms_data_inv raw d E) as [bohr [lines [d0 [L ->]]]].
  destruct (atoms_loop_inv
              (fun kv => fst kv = ("atom_" ++ Str.of_Z (sort (snd kv)))%string /\
                         List.length (coord (snd kv)) = 3)
              lines (fun k a Ek La => conj Ek La) [] d0 L
              (NoDup_nil _) (Forall_nil _)) as [ND Fd].
  assert (G : NoDup (Dict.keys (if bohr then convert_units d0 else d0)) /\
              Forall (fun kv => fst kv = ("atom_" ++ Str.of_Z (sort (snd kv)))%string /\
                                List.length (coord (snd kv)) = 3)
                     (if bohr then convert_units d0 else d0)).
  { destruct bohr; [|now split].
    split; [now rewrite convert_units_keys|].
    unfold convert_units. apply Forall_map. eapply Forall_impl; [|exact Fd].
    intros [k a] [Ek La]. simpl in *. split; [exact Ek|].
    unfold _bohr_to_ang. now rewrite length_map. }
  destruct G as [ND' Fd']. split; [exact ND'|]. split; [|exact Fd'].
  apply keyed_by_sort_nodup; [exact ND'|].
  eapply Forall_impl; [|exact Fd']. now intros kv [Ek _].
Qed.

(** X7: when several well-formed atom lines carry the same index field,
    the record read back under that key is the one of the last such
    line; the earlier ones are overwritten without any error. *)
Theorem atoms_last_line_wins
  (raw : RawData) (bohr : bool) (lines : list string)
  (pre post : list (atom_fields F)) (p : atom_fields F) :
  atoms_section raw bohr lines ->
  Forall2 atom_line_ok lines (pre ++ p :: post) ->
  (forall q, In q post -> a_index q <> a_index p) ->
  exists d,
    parse_atoms_data raw = Ok d /\
    Dict.get String.eqb d (atom_key p) =
      Some (if bohr
            then set_coord (snd (atom_entry p)) (_bohr_to_ang [a_x p; a_y p; a_z p])
            else snd (atom_entry p)).
Proof.
  intros S W L.
  rewrite (parse_atoms_data_section raw bohr lines S).
  rewrite (atoms_loop_ok lines _ W []). simpl.
  eexists. split; [reflexivity|].
  assert (G : Dict.get String.eqb
                (store_all String.eqb [] (map atom_entry (pre ++ p :: post)))
                (atom_key p) = Some (snd (atom_entry p))).
  { rewrite map_app. simpl.
    apply (store_all_last _ _ _ string_eqb_spec). intros I.
    rewrite map_map in I. apply in_map_iff in I. destruct I as [q [E I]].
    simpl in E. apply atom_key_inj in E. exact (L q I E). }
  destruct bohr; [|exact G].
  rewrite get_convert_units, G. reflexivity.
Qed.

(** X8: the first atom line that cannot be read or whose proton number is
    outside the table of masses decides the outcome: its exception is
    raised, whatever follows it, and no mapping is returned. *)
Theorem atoms_first_bad_line
  (raw : RawData) (bohr : bool) (good rest : list string) (bad : string)
  (ps : list (atom_fields F)) (e : exn) :
  atoms_section raw bohr (good ++ bad :: rest) ->
  Forall2 atom_line_ok good ps ->
  atom_step [] bad = Err e ->
  parse_atoms_data raw = Err e.
Proof.
  intros S W B.
  rewrite (parse_atoms_data_section raw bohr _ S).
  rewrite atoms_loop_app, (atoms_loop_ok good ps W []). simpl.
  rewrite (atom_step_error_indep [] _ bad e B). reflexivity.
Qed.

Lemma np_index_wraps {A : Type} (a : list A) (i : Z) :
  let n := Z.of_nat (List.length a) in
  ((0 <= i < n)%Z -> exists x, np_index a i = Ok x /\
                               nth_error a (Z.to_nat i) = Some x) /\
  ((- n <= i < 0)%Z -> exists x, np_index a i = Ok x /\
                                 nth_error a (Z.to_nat (i + n)) = Some x) /\
  ((i < - n \/ n <= i)%Z -> np_index a i = Err IndexError).
Proof.
  intros n. unfold np_index. fold n.
  assert (In_range : forall j, (0 <= j < n)%Z ->
            exists x, nth_error a (Z.to_nat j) = Some x).
  { intros j Hj. destruct (nth_error a (Z.to_nat j)) as [x|] eqn:E; [now exists x|].
    apply nth_error_None in E. unfold n in Hj. lia. }
  split; [|split].
  - intros H. destruct (In_range i H) as [x E]. exists x.
    destruct (Z.ltb_spec i 0); [lia|].
    destruct (Z.leb_spec 0 i); [|lia]. destruct (Z.ltb_spec i n); [|lia].
    simpl. rewrite E. now split.
  - intros H. destruct (In_range (i + n)%Z ltac:(lia)) as [x E]. exists x.
    destruct (Z.ltb_spec i 0); [|lia].
    destruct (Z.leb_spec 0 (i + n)); [|lia].
    destruct (Z.ltb_spec (i + n) n); [|lia].
    simpl. rewrite E. now split.
  - intros H. destruct (Z.ltb_spec i 0).
    + destruct (Z.leb_spec 0 (i + n)); [lia | reflexivity].
    + destruct (Z.leb_spec 0 i); [|lia].
      destruct (Z.ltb_spec i n); [lia | reflexivity].
Qed.

End GeometryMore.

(** ** The Mode Extractor: delimiters, ragged groups, general shape *)

Section DisplacementsMore.
Context {FO : FloatOps}.

Lemma disp_loop_app (l1 l2 : list string) (st : modes) :
  disp_loop st (l1 ++ l2) = (st' <- disp_loop st l1 ;; disp_loop st' l2).
Proof.
  revert st. induction l1 as [|l l1 IH]; intros st; simpl; [reflexivity|].
  destruct (disp_step st l) as [st1|e]; simpl; [apply IH | reflexivity].
Qed.

Lemma group_wf_rows (g : group) : group_wf g -> pending (group_rows g) = [group_rows g].
Proof. intros [G P]. exact (pending_rows _ g G P). Qed.

(** Groups of any non-zero sizes: the state after the last group. *)
Lemma disp_loop_wf_groups (gs : list group) (g : group) :
  Forall group_wf gs -> group_wf g ->
  forall ma cur,
    disp_loop {| modes_array := ma; current_mode_data := cur |}
              (coord_section (gs ++ [g]))
    = Ok {| modes_array := ma ++ pending cur ++ map group_rows gs;
            current_mode_data := group_rows g |}.
Proof.
  intros H Wg. induction H as [|g0 gs W0 _ IH]; intros ma cur.
  - unfold coord_section. cbn [app flat_map]. rewrite app_nil_r.
    rewrite <- (app_nil_r (group_lines g)).
    rewrite (disp_loop_group _ g [] (proj1 Wg)). simpl.
    now rewrite !app_nil_r.
  - unfold coord_section. cbn [app flat_map].
    rewrite (disp_loop_group _ g0 _ (proj1 W0)).
    fold (coord_section (gs ++ [g])). rewrite IH.
    rewrite (group_wf_rows g0 W0). simpl. rewrite <- !app_assoc. reflexivity.
Qed.

Lemma np_asarray_ragged (r r' : list (list F)) (a : list (list (list F))) :
  In r' (r :: a) -> List.length r' <> List.length r ->
  np_asarray (r :: a) = Err ValueError.
Proof.
  intros I N. unfold np_asarray.
  destruct (forallb (fun x => Nat.eqb (List.length x) (List.length r)) (r :: a)) eqn:E;
    [|reflexivity].
  exfalso. rewrite forallb_forall in E. specialize (E r' I).
  apply Nat.eqb_eq in E. contradiction.
Qed.

Lemma parse_displacements_of (raw : RawData) (lines : list string) :
  raw_get raw "[FR-NORM-COORD]" = Some (Some lines) ->
  _parse_displacements raw =
  (st <- disp_loop modes_init lines ;;
   a <- np_asarray (collected st) ;;
   Ok (swapaxes12 (expand_dims0 a))).
Proof.
  unfold _parse_displacements, raw_get, raw_lookup, Dict.lookup.
  intros ->. reflexivity.
Qed.

(** X10: groups with different numbers of atom lines are refused: the
    displacement parser raises [ValueError]; nothing is padded or
    truncated. *)
Theorem ragged_groups_rejected
  (raw : RawData) (gs : list group) (g g' : group) :
  raw_get raw "[FR-NORM-COORD]" = Some (Some (coord_section gs)) ->
  Forall group_wf gs ->
  In g gs -> In g' gs ->
  List.length (snd g) <> List.length (snd g') ->
  _parse_displacements raw = Err ValueError.
Proof.
  intros R W Ig Ig' N.
  rewrite (parse_displacements_of raw _ R).
  destruct (exists_last (l := gs)) as [gs0 [gl E]];
    [intros ->; contradiction Ig|].
  subst gs. apply Forall_app in W. destruct W as [W0 Wl].
  inversion Wl as [|? ? Wg _]; subst.
  unfold modes_init. rewrite (disp_loop_wf_groups gs0 gl W0 Wg [] []). simpl.
  unfold collected. simpl.
  assert (M : map group_rows gs0 ++ [group_rows gl] = map group_rows (gs0 ++ [gl])).
  { rewrite map_app. reflexivity. }
  rewrite M.
  destruct (gs0 ++ [gl]) as [|g1 gs1] eqn:Egs; [contradiction Ig|].
  cbn [map].
  assert (D : forall x, In x (g1 :: gs1) ->
                        List.length (snd x) <> List.length (snd g1) ->
                        np_asarray (group_rows g1 :: map group_rows gs1) = Err ValueError).
  { intros x Ix Nx. apply (np_asarray_ragged (group_rows g1) (group_rows x)).
    - change (In (group_rows x) (map group_rows (g1 :: gs1))). now apply in_map.
    - unfold group_rows. now rewrite !length_map. }
  destruct (Nat.eq_dec (List.length (snd g)) (List.length (snd g1))) as [Eg|Ng].
  - rewrite (D g' Ig' ltac:(congruence)). reflexivity.
  - rewrite (D g Ig Ng). reflexivity.
Qed.

(** X11: a delimiter line left at the end of the section, after groups that
    have atom lines, opens a mode without rows: the array is ragged and
    the displacement parser raises [ValueError]. *)
Theorem trailing_delimiter_rejected
  (raw : RawData) (gs : list group) (d : string) :
  raw_get raw "[FR-NORM-COORD]" = Some (Some (coord_section gs ++ [d])) ->
  Forall group_wf gs -> gs <> [] ->
  Str.contains "vibration" d = true ->
  _parse_displacements raw = Err ValueError.
Proof.
  intros R W N D.
  rewrite (parse_displacements_of raw _ R).
  destruct (exists_last N) as [gs0 [gl E]]. subst gs.
  apply Forall_app in W. destruct W as [W0 Wl].
  inversion Wl as [|? ? Wg _]; subst.
  rewrite disp_loop_app. unfold modes_init.
  rewrite (disp_loop_wf_groups gs0 gl W0 Wg [] []). simpl.
  rewrite (disp_step_delimiter _ d D). simpl.
  rewrite (group_wf_rows gl Wg). unfold collected. simpl.
  assert (L : forall x, group_wf x -> List.length (@nil (list F)) <> List.length (group_rows x)).
  { intros x [Gx Px]. rewrite (group_rows_length _ x Gx). simpl. lia. }
  destruct gs0 as [|g1 gs1]; cbn [map app].
  - rewrite (np_asarray_ragged (group_rows gl) []); [reflexivity | | now apply L].
    right. now left.
  - inversion W0 as [|? ? W1 _]; subst.
    rewrite (np_asarray_ragged (group_rows g1) []); [reflexivity | | now apply L].
    right. apply in_or_app. right. now left.
Qed.

(** X12: a delimiter line met while the current mode has no row changes
    nothing: the delimiter that opens the section may be left out, and a
    delimiter written twice counts once. *)
Theorem idle_delimiters_ignored
  (raw raw' : RawData) (pre post : list string) (d d' : string) :
  Str.contains "vibration" d = true ->
  Str.contains "vibration" d' = true ->
  (raw_get raw "[FR-NORM-COORD]" = Some (Some (d :: post)) ->
   raw_get raw' "[FR-NORM-COORD]" = Some (Some post) ->
   _parse_displacements raw = _parse_displacements raw') /\
  (raw_get raw "[FR-NORM-COORD]" = Some (Some (pre ++ d :: d' :: post)) ->
   raw_get raw' "[FR-NORM-COORD]" = Some (Some (pre ++ d :: post)) ->
   _parse_displacements raw = _parse_displacements raw').
Proof.
  intros D D'. split; intros R R';
    rewrite (parse_displacements_of raw _ R), (parse_displacements_of raw' _ R').
  - simpl. rewrite (disp_step_delimiter _ d D). reflexivity.
  - rewrite !disp_loop_app.
    destruct (disp_loop modes_init pre) as [st|e]; simpl; [|reflexivity].
    rewrite (disp_step_delimiter _ d D). simpl.
    rewrite (disp_step_delimiter _ d' D'). simpl.
    now rewrite app_nil_r.
Qed.

End DisplacementsMore.

Section ShapeMore.
Context {FO : FloatOps}.

Lemma disp_step_keeps_rows (st st' : modes) (line : string) :
  disp_step st line = Ok st' ->
  rows_odd_zero (collected st) -> rows_odd_zero (collected st').
Proof.
  unfold disp_step, rows_odd_zero, collected.
  destruct (Str.contains "vibration" line).
  - destruct (current_mode_data st) as [|r cur] eqn:C.
    + intros E. injection E as <-. now rewrite C.
    + intros E. injection E as <-. simpl. intros H.
      apply Forall_app. split; [exact H | repeat constructor].
  - destruct (Str.split line) as [|x [|y [|z [|w t]]]]; try discriminate.
    unfold float.
    destruct (float_of_string x) as [x'|]; simpl; [|discriminate].
    destruct (float_of_string y) as [y'|]; simpl; [|discriminate].
    destruct (float_of_string z) as [z'|]; simpl; [|discriminate].
    intros E. injection E as <-. simpl. intros H.
    apply Forall_app in H. destruct H as [Hm Hc].
    apply Forall_app. split; [exact Hm|].
    inversion Hc as [|? ? Hcur _]; subst.
    constructor; [|constructor]. apply Forall_app. split; [exact Hcur|].
    constructor; [|constructor]. exact (row6_odd_zero (x', y', z')).
Qed.

Lemma disp_loop_keeps_rows (lines : list string) (st st' : modes) :
  disp_loop st lines = Ok st' ->
  rows_odd_zero (collected st) -> rows_odd_zero (collected st').
Proof.
  revert st. induction lines as [|l lines IH]; simpl; intros st E H.
  - now injection E as <-.
  - destruct (disp_step st l) as [st1|e] eqn:S; simpl in E; [|discriminate E].
    apply (IH st1 E). now apply (disp_step_keeps_rows st st1 l).
Qed.

Lemma np_asarray_inv (a a' : list (list (list F))) :
  np_asarray a = Ok a' ->
  a' = a /\ exists K, Forall (fun r => List.length r = K) a.
Proof.
  unfold np_asarray. destruct a as [|r a0].
  - intros E. injection E as <-. split; [reflexivity|]. exists 0. constructor.
  - destruct (forallb _ (r :: a0)) eqn:B; [|discriminate].
    intros E. injection E as <-. split; [reflexivity|].
    exists (List.length r). apply Forall_forall. intros x I.
    rewrite forallb_forall in B. now apply Nat.eqb_eq, B.
Qed.

Lemma transpose_shape_rows (K : nat) (rows : list (list (list F))) :
  rows <> [] -> Forall (fun r => List.length r = K) rows ->
  rows_odd_zero rows ->
  shape_1KM6 K (List.length rows) [transpose [] rows].
Proof.
  intros N R Z. split; [reflexivity|]. constructor; [|constructor].
  split; [now apply transpose_length|].
  pose proof (transpose_columns [] K rows N R) as C.
  eapply Forall_impl; [|exact C].
  intros col [a [La ->]]. split; [now rewrite length_map|].
  apply Forall_map. apply Forall_forall. intros row I.
  unfold rows_odd_zero in Z. rewrite Forall_forall in R, Z.
  pose proof (R row I) as Lr. pose proof (Z row I) as Zr.
  rewrite Forall_forall in Zr. apply Zr. apply nth_In. lia.
Qed.

(** X13: whatever the normal-coordinates section holds, an array returned
    by the displacement parser has one outer entry, is rectangular in
    its atom and mode axes, has at least one mode, and every entry has
    six components with zero at the odd positions. *)
Theorem displacement_shape_general
  (raw : RawData) (res : list (list (list (list F)))) :
  _parse_displacements raw = Ok res ->
  exists K M, 1 <= M /\ shape_1KM6 K M res.
Proof.
  unfold _parse_displacements.
  destruct (raw_lookup raw "[FR-NORM-COORD]") as [v|e]; simpl; [|discriminate].
  destruct (iter v) as [lines|e]; simpl; [|discriminate].
  destruct (disp_loop modes_init lines) as [st|e] eqn:L; simpl; [|discriminate].
  fold (collected st).
  destruct (np_asarray (collected st)) as [a|e] eqn:A; simpl; [|discriminate].
  intros E. injection E as <-.
  destruct (np_asarray_inv _ _ A) as [-> [K R]].
  assert (Z : rows_odd_zero (collected st)).
  { apply (disp_loop_keeps_rows lines modes_init st L).
    unfold collected, modes_init. simpl. repeat constructor. }
  assert (N : collected st <> []).
  { unfold collected. destruct (modes_array st); discriminate. }
  exists K, (List.length (collected st)). split.
  - unfold collected. rewrite length_app. simpl. lia.
  - unfold swapaxes12, expand_dims0. simpl.
    now apply transpose_shape_rows.
Qed.

End ShapeMore.

(** ** Exchanging the axes twice *)

Lemma map_nth_seq {A} (d : A) (l : list A) :
  map (fun a => nth a l d) (seq 0 (List.length l)) = l.
Proof.
  induction l as [|x l IH]; simpl; [reflexivity|].
  f_equal. rewrite <- seq_shift, map_map. exact IH.
Qed.

(** X15: on a rectangular array with at least one row and one column,
    exchanging the two axes twice gives the array back. *)
Theorem transpose_involutive {A} (d : A) (K : nat) (rows : list (list A)) :
  rows <> [] -> 0 < K -> Forall (fun r => List.length r = K) rows ->
  transpose d (transpose d rows) = rows.
Proof.
  intros N P R.
  assert (T : transpose d rows =
              map (fun a => map (fun row => nth a row d) rows) (seq 0 K)).
  { destruct rows as [|r rows]; [congruence|]. unfold transpose.
    assert (Lr : List.length r = K) by now inversion R. now rewrite Lr. }
  rewrite T. destruct K as [|K']; [lia|].
  cbn [seq map]. unfold transpose at 1. rewrite length_map.
  change (map (fun row => nth 0 row d) rows
          :: map (fun a => map (fun row => nth a row d) rows) (seq 1 K'))
    with (map (fun a => map (fun row => nth a row d) rows) (seq 0 (S K'))).
  transitivity (map (fun m => nth m rows []) (seq 0 (List.length rows)));
    [|apply map_nth_seq].
  apply map_ext_in. intros m Im. apply in_seq in Im.
  rewrite map_map.
  assert (E : forall a, nth m (map (fun row => nth a row d) rows) d
                        = nth a (nth m rows []) d).
  { intros a.
    pose proof (map_nth (fun row => nth a row d) rows [] m) as H.
    cbv beta in H. replace (nth a [] d) with d in H by (destruct a; reflexivity).
    exact H. }
  rewrite (map_ext _ _ E).
  assert (Lm : List.length (nth m rows []) = S K').
  { rewrite Forall_forall in R. apply R. apply nth_In. lia. }
  rewrite <- Lm. apply map_nth_seq.
Qed.

(** ** Writing sections and reading them back; order of the sections *)

Lemma body_cons (s : string * list string) (secs : list (string * list string)) :
  body_of_sections (s :: secs) = fst s :: snd s ++ body_of_sections secs.
Proof. reflexivity. Qed.

Lemma sections_of_body (secs : list (string * list string)) :
  Forall section_ok secs ->
  forall h blk,
    sections h blk (body_of_sections secs)
    = (Some h, Some blk) :: map section_entry secs.
Proof.
  induction 1 as [|s secs [Hh [_ Hb]] _ IH]; intros h blk; [reflexivity|].
  rewrite body_cons. cbn [sections]. rewrite Hh. f_equal.
  rewrite sections_body.
  - rewrite IH. reflexivity.
  - eapply Forall_impl; [|exact Hb]. now intros l [Hl _].
Qed.

Lemma body_stripped (secs : list (string * list string)) :
  Forall section_ok secs ->
  map Str.strip (body_of_sections secs) = body_of_sections secs.
Proof.
  induction 1 as [|s secs [_ [Sh Hb]] _ IH]; [reflexivity|].
  rewrite body_cons. cbn [map]. rewrite map_app, Sh, IH. f_equal. f_equal.
  clear -Hb. induction Hb as [|l ls [_ Sl] _ IHb]; [reflexivity|].
  simpl. now rewrite Sl, IHb.
Qed.

Lemma read_blocks_body (secs : list (string * list string)) :
  secs <> [] ->
  Forall section_ok secs ->
  NoDup (map fst secs) ->
  _read_blocks (body_of_sections secs) = Ok (map section_entry secs).
Proof.
  intros N W ND. destruct secs as [|s secs]; [congruence|].
  pose proof (body_stripped (s :: secs) W) as B.
  inversion W as [|? ? [Hh [Sh Hb]] W']; subst.
  rewrite body_cons in *. cbn [map] in B. injection B as _ B.
  rewrite read_blocks_sections by now rewrite Sh.
  rewrite Sh, B, sections_body
    by (eapply Forall_impl; [|exact Hb]; now intros l [Hl _]).
  rewrite (sections_of_body secs W').
  change ((Some (fst s), Some ([] ++ snd s)) :: map section_entry secs)
    with (map section_entry (s :: secs)).
  rewrite (store_all_fresh _ _ _ key_eqb_spec); [reflexivity|].
  change (NoDup (map fst (map section_entry (s :: secs)))).
  rewrite map_map.
  change (NoDup (map (fun x : string * list string => Some (fst x)) (s :: secs))).
  rewrite <- (map_map fst Some). apply NoDup_map_Some. exact ND.
Qed.

(** X4: reading back a body written section by section, with pairwise
    distinct headers, gives exactly those sections, in their order, and
    each header then looks up its own content lines. *)
Theorem read_blocks_of_written_sections (secs : list (string * list string)) :
  secs <> [] ->
  Forall section_ok secs ->
  NoDup (map fst secs) ->
  _read_blocks (body_of_sections secs) = Ok (map section_entry secs) /\
  (forall s, In s secs ->
             raw_get (map section_entry secs) (fst s) = Some (Some (snd s))).
Proof.
  intros N W ND. split; [now apply read_blocks_body|].
  intros s I. unfold raw_get. apply (get_in _ _ _ key_eqb_spec).
  - unfold Dict.keys. rewrite map_map.
    change (NoDup (map (fun x : string * list string => Some (fst x)) secs)).
    rewrite <- (map_map fst Some). now apply NoDup_map_Some.
  - change (In (section_entry s) (map section_entry secs)). now apply in_map.
Qed.

Lemma get_permutation {K V} (eqb : K -> K -> bool)
  (eqb_spec : forall a b, reflect (a = b) (eqb a b))
  (d1 d2 : Dict.t K V) (k : K) :
  NoDup (Dict.keys d1) -> Permutation d1 d2 ->
  Dict.get eqb d1 k = Dict.get eqb d2 k.
Proof.
  intros ND P.
  assert (ND2 : NoDup (Dict.keys d2)).
  { unfold Dict.keys. eapply Permutation_NoDup; [|exact ND].
    now apply Permutation_map. }
  destruct (Dict.get eqb d1 k) as [v|] eqn:G1.
  - apply (get_in _ _ _ eqb_spec _ _ _ ND) in G1.
    symmetry. apply (get_in _ _ _ eqb_spec _ _ _ ND2).
    eapply Permutation_in; eauto.
  - destruct (Dict.get eqb d2 k) as [v|] eqn:G2; [|reflexivity].
    apply (get_in _ _ _ eqb_spec _ _ _ ND2) in G2.
    apply Permutation_sym in P.
    pose proof (Permutation_in _ P G2) as I.
    apply (get_in _ _ _ eqb_spec _ _ _ ND) in I. congruence.
Qed.

Section Order.
Context {FO : FloatOps}.

Lemma parse_atoms_data_ext (raw raw' : RawData) :
  (forall k, raw_get raw k = raw_get raw' k) ->
  parse_atoms_data raw = parse_atoms_data raw'.
Proof.
  intros H. unfold parse_atoms_data, raw_mem, raw_lookup, Dict.mem, Dict.lookup.
  change (Dict.get key_eqb raw (Some "[Atoms] AU")) with (raw_get raw "[Atoms] AU").
  change (Dict.get key_eqb raw (Some "[Atoms] Angs")) with (raw_get raw "[Atoms] Angs").
  change (Dict.get key_eqb raw' (Some "[Atoms] AU")) with (raw_get raw' "[Atoms] AU").
  change (Dict.get key_eqb raw' (Some "[Atoms] Angs")) with (raw_get raw' "[Atoms] Angs").
  now rewrite !H.
Qed.

Lemma parse_k_points_data_ext (raw raw' : RawData) :
  (forall k, raw_get raw k = raw_get raw' k) ->
  parse_k_points_data raw = parse_k_points_data raw'.
Proof.
  intros H.
  unfold parse_k_points_data, _parse_displacements, raw_lookup, Dict.lookup.
  change (Dict.get key_eqb raw (Some "[FREQ]")) with (raw_get raw "[FREQ]").
  change (Dict.get key_eqb raw' (Some "[FREQ]")) with (raw_get raw' "[FREQ]").
  change (Dict.get key_eqb raw (Some "[FR-NORM-COORD]"))
    with (raw_get raw "[FR-NORM-COORD]").
  change (Dict.get key_eqb raw' (Some "[FR-NORM-COORD]"))
    with (raw_get raw' "[FR-NORM-COORD]").
  now rewrite !H.
Qed.

(** X5: the order in which the sections are written in the file does not
    matter: two files with the same first line whose bodies hold the
    same sections, with pairwise distinct headers, in different orders
    are converted to the same result. *)
Theorem section_order_irrelevant
  (first : string) (secs secs' : list (string * list string)) :
  Permutation secs secs' ->
  Forall section_ok secs ->
  NoDup (map fst secs) ->
  main (first :: body_of_sections secs) = main (first :: body_of_sections secs').
Proof.
  intros P W ND.
  assert (W' : Forall section_ok secs').
  { apply Forall_forall. intros x I. rewrite Forall_forall in W. apply W.
    apply Permutation_sym in P. eapply Permutation_in; eauto. }
  assert (ND' : NoDup (map fst secs')).
  { eapply Permutation_NoDup; [|exact ND]. now apply Permutation_map. }
  destruct secs as [|s secs0].
  - apply Permutation_nil in P. now subst.
  - assert (N' : secs' <> []).
    { intros ->. apply Permutation_sym, Permutation_nil in P. discriminate P. }
    unfold main, _check_first_line. cbv beta iota delta [readline].
    destruct (negb (String.eqb (Str.strip first) "[Molden Format]")); [reflexivity|].
    cbv beta iota delta [bind].
    rewrite (read_blocks_body (s :: secs0) ltac:(discriminate) W ND).
    rewrite (read_blocks_body secs' N' W' ND').
    assert (G : forall k, raw_get (map section_entry (s :: secs0)) k
                          = raw_get (map section_entry secs') k).
    { intros k. unfold raw_get. apply (get_permutation key_eqb key_eqb_spec).
      - unfold Dict.keys. rewrite map_map.
        change (NoDup (map (fun x : string * list string => Some (fst x))
                           (s :: secs0))).
        rewrite <- (map_map fst Some). now apply NoDup_map_Some.
      - now apply Permutation_map. }
    rewrite (parse_atoms_data_ext _ _ G), (parse_k_points_data_ext _ _ G).
    reflexivity.
Qed.

End Order.

(** ** Concrete instances of the further properties *)

Lemma header_match_language_witness :
  Re.header_match "[Atoms] AUxyz" = true.
Proof.
  apply (proj2 (header_match_language "[Atoms] AUxyz")).
  exists "Atoms", " AUxyz". split; [discriminate|].
  split; [repeat constructor | reflexivity].
Defined.

Lemma read_blocks_outcome_witness :
  exists d, _read_blocks [" [FREQ] "; "1.0"] = Ok d.
Proof.
  apply (proj2 (proj1 (read_blocks_outcome [" [FREQ] "; "1.0"]))).
  right. exists " [FREQ] ", ["1.0"]. split; reflexivity.
Defined.

Lemma read_blocks_of_written_sections_witness :
  _read_blocks ["[Atoms] AU"; "H 1 1 0.0 0.0 0.0"; "[FREQ]"; "4500.0"]
  = Ok [(Some "[Atoms] AU", Some ["H 1 1 0.0 0.0 0.0"]);
        (Some "[FREQ]", Some ["4500.0"])].
Proof.
  refine (proj1 (read_blocks_of_written_sections
           [("[Atoms] AU", ["H 1 1 0.0 0.0 0.0"]); ("[FREQ]", ["4500.0"])] _ _ _)).
  - discriminate.
  - constructor; [|constructor; [|constructor]];
      (split; [reflexivity|]; split; [reflexivity|];
       constructor; [split; reflexivity | constructor]).
  - constructor; [simpl; intuition discriminate|].
    constructor; [simpl; tauto | constructor].
Defined.

Lemma section_order_irrelevant_witness :
  main (FO := Dec.ops)
    ["[Molden Format]"; "[FREQ]"; "4500.0"; "[Atoms] Angs"; "H 1 1 0.0 0.0 0.0";
     "[FR-NORM-COORD]"; "vibration 1"; "0.0 0.0 0.1"]
  = main (FO := Dec.ops)
    ["[Molden Format]"; "[Atoms] Angs"; "H 1 1 0.0 0.0 0.0"; "[FREQ]"; "4500.0";
     "[FR-NORM-COORD]"; "vibration 1"; "0.0 0.0 0.1"].
Proof.
  apply (@section_order_irrelevant Dec.ops "[Molden Format]"
           [("[FREQ]", ["4500.0"]); ("[Atoms] Angs", ["H 1 1 0.0 0.0 0.0"]);
            ("[FR-NORM-COORD]", ["vibration 1"; "0.0 0.0 0.1"])]
           [("[Atoms] Angs", ["H 1 1 0.0 0.0 0.0"]); ("[FREQ]", ["4500.0"]);
            ("[FR-NORM-COORD]", ["vibration 1"; "0.0 0.0 0.1"])]).
  - apply perm_swap.
  - constructor;
      [split; [reflexivity|]; split; [reflexivity|];
       constructor; [split; reflexivity | constructor]|].
    constructor;
      [split; [reflexivity|]; split; [reflexivity|];
       constructor; [split; reflexivity | constructor]|].
    constructor; [|constructor].
    split; [reflexivity|]. split; [reflexivity|].
    constructor; [split; reflexivity|].
    constructor; [split; reflexivity | constructor].
  - constructor; [simpl; intuition discriminate|].
    constructor; [simpl; intuition discriminate|].
    constructor; [simpl; tauto | constructor].
Defined.

Lemma atoms_data_invariant_witness :
  NoDup (Dict.keys
           [("atom_0", @Build_AtomData Dec.t
                         [(0, -1)%Z; (0, -1)%Z; (74, -2)%Z] (1008, -3)%Z 0 "H")]).
Proof.
  apply (@atoms_data_invariant Dec.ops
           [(Some "[Atoms] Angs",
             Some ["H 1 1 0.0 0.0 0.0"; "H 1 1 0.0 0.0 0.74"])]).
  reflexivity.
Defined.

Lemma atoms_last_line_wins_witness :
  exists d,
    parse_atoms_data (FO := Dec.ops)
      [(Some "[Atoms] Angs",
        Some ["H 1 1 0.0 0.0 0.0"; "O 2 2 1.0 0.0 0.0"; "H 1 1 0.0 0.0 0.74"])]
      = Ok d /\
    Dict.get String.eqb d "atom_0"
      = Some (@Build_AtomData Dec.t
                [(0, -1)%Z; (0, -1)%Z; (74, -2)%Z] (1008, -3)%Z 0 "H").
Proof.
  apply (@atoms_last_line_wins Dec.ops
           [(Some "[Atoms] Angs",
             Some ["H 1 1 0.0 0.0 0.0"; "O 2 2 1.0 0.0 0.0"; "H 1 1 0.0 0.0 0.74"])]
           false
           ["H 1 1 0.0 0.0 0.0"; "O 2 2 1.0 0.0 0.0"; "H 1 1 0.0 0.0 0.74"]
           [ @Build_atom_fields Dec.t "H" 1 1
               (0, -1)%Z (0, -1)%Z (0, -1)%Z (1008, -3)%Z;
             @Build_atom_fields Dec.t "O" 2 2
               (10, -1)%Z (0, -1)%Z (0, -1)%Z (4002602, -6)%Z ]
           []
           (@Build_atom_fields Dec.t "H" 1 1
              (0, -1)%Z (0, -1)%Z (74, -2)%Z (1008, -3)%Z)).
  - split; reflexivity.
  - constructor; [split; reflexivity|].
    constructor; [split; reflexivity|].
    constructor; [split; reflexivity | constructor].
  - intros q [].
Defined.

Lemma atoms_first_bad_line_witness :
  parse_atoms_data (FO := Dec.ops)
    [(Some "[Atoms] AU",
      Some ["H 1 1 0.0 0.0 0.0"; "H 2 7 0.0 0.0 0.74"; "not an atom line"])]
  = Err IndexError.
Proof.
  apply (@atoms_first_bad_line Dec.ops
           [(Some "[Atoms] AU",
             Some ["H 1 1 0.0 0.0 0.0"; "H 2 7 0.0 0.0 0.74"; "not an atom line"])]
           true ["H 1 1 0.0 0.0 0.0"] ["not an atom line"] "H 2 7 0.0 0.0 0.74"
           [ @Build_atom_fields Dec.t "H" 1 1
               (0, -1)%Z (0, -1)%Z (0, -1)%Z (1008, -3)%Z ]).
  - reflexivity.
  - constructor; [split; reflexivity | constructor].
  - reflexivity.
Defined.

Lemma ragged_groups_rejected_witness :
  _parse_displacements (FO := Dec.ops)
    [(Some "[FR-NORM-COORD]",
      Some ["vibration 1"; "0.0 0.0 0.1"; "0.0 0.0 0.2";
            "vibration 2"; "0.0 0.0 0.3"])]
  = Err ValueError.
Proof.
  apply (@ragged_groups_rejected Dec.ops
           [(Some "[FR-NORM-COORD]",
             Some ["vibration 1"; "0.0 0.0 0.1"; "0.0 0.0 0.2";
                   "vibration 2"; "0.0 0.0 0.3"])]
           [("vibration 1",
             [("0.0 0.0 0.1", ((0, -1), (0, -1), (1, -1))%Z);
              ("0.0 0.0 0.2", ((0, -1), (0, -1), (2, -1))%Z)]);
            ("vibration 2",
             [("0.0 0.0 0.3", ((0, -1), (0, -1), (3, -1))%Z)])]
           ("vibration 1",
             [("0.0 0.0 0.1", ((0, -1), (0, -1), (1, -1))%Z);
              ("0.0 0.0 0.2", ((0, -1), (0, -1), (2, -1))%Z)])
           ("vibration 2",
             [("0.0 0.0 0.3", ((0, -1), (0, -1), (3, -1))%Z)])).
  - reflexivity.
  - constructor; [split; [group_holds | simpl; lia]|].
    constructor; [split; [group_holds | simpl; lia] | constructor].
  - now left.
  - right. now left.
  - simpl. lia.
Defined.

Lemma trailing_delimiter_rejected_witness :
  _parse_displacements (FO := Dec.ops)
    [(Some "[FR-NORM-COORD]",
      Some ["vibration 1"; "0.0 0.0 0.1"; "vibration 2"])]
  = Err ValueError.
Proof.
  apply (@trailing_delimiter_rejected Dec.ops
           [(Some "[FR-NORM-COORD]",
             Some ["vibration 1"; "0.0 0.0 0.1"; "vibration 2"])]
           [("vibration 1", [("0.0 0.0 0.1", ((0, -1), (0, -1), (1, -1))%Z)])]
           "vibration 2").
  - reflexivity.
  - constructor; [split; [group_holds | simpl; lia] | constructor].
  - discriminate.
  - reflexivity.
Defined.

Lemma idle_delimiters_ignored_witness :
  _parse_displacements (FO := Dec.ops)
    [(Some "[FR-NORM-COORD]", Some ["vibration 1"; "0.0 0.0 0.1"])]
  = _parse_displacements (FO := Dec.ops)
    [(Some "[FR-NORM-COORD]", Some ["0.0 0.0 0.1"])].
Proof.
  apply (proj1 (@idle_delimiters_ignored Dec.ops
                  [(Some "[FR-NORM-COORD]", Some ["vibration 1"; "0.0 0.0 0.1"])]
                  [(Some "[FR-NORM-COORD]", Some ["0.0 0.0 0.1"])]
                  [] ["0.0 0.0 0.1"] "vibration 1" "vibration 1"
                  eq_refl eq_refl)); reflexivity.
Defined.

Lemma displacement_shape_general_witness :
  exists K M, 1 <= M /\
    shape_1KM6 (FO := Dec.ops) K M
      [[[[(0, -1)%Z; (0, 0)%Z; (0, -1)%Z; (0, 0)%Z; (1, -1)%Z; (0, 0)%Z]]]].
Proof.
  apply (@displacement_shape_general Dec.ops
           [(Some "[FR-NORM-COORD]", Some ["0.0 0.0 0.1"])]).
  reflexivity.
Defined.

Lemma transpose_involutive_witness :
  transpose 0 (transpose 0 [[1; 2; 3]; [4; 5; 6]]) = [[1; 2; 3]; [4; 5; 6]].
Proof.
  apply (transpose_involutive 0 3 [[1; 2; 3]; [4; 5; 6]]).
  - discriminate.
  - lia.
  - repeat constructor.
Defined.

(** ** Masses and frequencies: which failure comes first *)

Section Lookups.
Context {FO : FloatOps}.

(** X9: the mass of a record is the entry of the table of masses at the
    proton number of its line, counted from the end of the table when
    the proton number is negative; a line that parses but whose proton
    number lies outside [-n .. n-1], met after well-formed lines, makes
    the Geometry Extractor raise [IndexError] and return nothing. *)
Theorem atom_mass_from_table
  (raw : RawData) (bohr : bool) (pre post : list string) (line : string)
  (ps ps' : list (atom_fields F))
  (sym : string) (idx pn : Z) (x y z : F) :
  atoms_section raw bohr (pre ++ line :: post) ->
  Forall2 atom_line_ok pre ps ->
  _parse_atom_line line = Ok (sym, idx, pn, x, y, z) ->
  let n := Z.of_nat (List.length atomic_masses) in
  ((pn < - n \/ n <= pn)%Z -> parse_atoms_data raw = Err IndexError) /\
  ((- n <= pn < n)%Z ->
   Forall2 atom_line_ok post ps' ->
   (forall q, In q ps' -> a_index q <> idx) ->
   exists d a,
     parse_atoms_data raw = Ok d /\
     Dict.get String.eqb d ("atom_" ++ Str.of_Z (idx - 1)%Z)%string = Some a /\
     sort a = (idx - 1)%Z /\ symbol a = sym /\
     nth_error atomic_masses
       (Z.to_nat (if (pn <? 0)%Z then (pn + n)%Z else pn)) = Some (mass a)).
Proof.
  intros S W P n.
  destruct (np_index_wraps atomic_masses pn) as [Front [Back Out]]. fold n in Front, Back, Out.
  split.
  - intros H.
    assert (B : atom_step [] line = Err IndexError).
    { unfold atom_step. rewrite P. simpl. rewrite (Out H). reflexivity. }
    rewrite (parse_atoms_data_section raw bohr _ S).
    rewrite atoms_loop_app, (atoms_loop_ok pre ps W []). simpl.
    rewrite (atom_step_error_indep [] _ line _ B). reflexivity.
  - intros H W' L.
    assert (M : exists m, np_index atomic_masses pn = Ok m /\
                nth_error atomic_masses
                  (Z.to_nat (if (pn <? 0)%Z then (pn + n)%Z else pn)) = Some m).
    { destruct (Z.ltb_spec pn 0); [apply Back | apply Front]; lia. }
    destruct M as [m [Im Nm]].
    set (p := {| a_symbol := sym; a_index := idx; a_proton := pn;
                 a_x := x; a_y := y; a_z := z; a_mass := m |}).
    assert (Wp : atom_line_ok line p) by (split; assumption).
    assert (Wall : Forall2 atom_line_ok (pre ++ line :: post) (ps ++ p :: ps')).
    { apply Forall2_app; [exact W|]. constructor; assumption. }
    rewrite (parse_atoms_data_section raw bohr _ S).
    rewrite (atoms_loop_ok _ _ Wall []). cbn [bind].
    pose proof (last_entry_get ps ps' p L) as G.
    change (atom_key p) with ("atom_" ++ Str.of_Z (idx - 1)%Z)%string in G.
    destruct bohr.
    + exists (convert_units (store_all String.eqb [] (map atom_entry (ps ++ p :: ps')))),
             (bohr_record p).
      split; [reflexivity|]. rewrite get_convert_units, G.
      split; [reflexivity|]. repeat split. exact Nm.
    + exists (store_all String.eqb [] (map atom_entry (ps ++ p :: ps'))),
             (snd (atom_entry p)).
      split; [reflexivity|]. split; [exact G|]. repeat split. exact Nm.
Qed.

Lemma mapM_float_first_error (good rest : list string) (bad : string) :
  Forall (fun l => float_of_string l <> None) good ->
  float_of_string bad = None ->
  mapM float (good ++ bad :: rest) = Err ValueError.
Proof.
  intros G B. induction G as [|l good Hl _ IH]; simpl.
  - unfold float at 1. rewrite B. reflexivity.
  - unfold float at 1. destruct (float_of_string l); [|congruence].
    simpl. rewrite IH. reflexivity.
Qed.

(** X14: the frequencies are read before the normal coordinates are
    looked at: a frequency line that [float] refuses makes the Mode
    Extractor raise [ValueError] whatever the normal-coordinates
    section holds, even when that section is absent, and a conversion
    whose atoms were read then returns that error. *)
Theorem frequency_error_comes_first
  (raw : RawData) (good rest : list string) (bad : string) :
  raw_get raw "[FREQ]" = Some (Some (good ++ bad :: rest)) ->
  Forall (fun l => float_of_string l <> None) good ->
  float_of_string bad = None ->
  parse_k_points_data raw = Err ValueError /\
  (forall fd fd',
     _check_first_line fd = Ok fd' -> _read_blocks fd' = Ok raw ->
     is_ok (parse_atoms_data raw) = true ->
     main fd = Err ValueError).
Proof.
  intros R G B.
  assert (E : parse_k_points_data raw = Err ValueError).
  { unfold parse_k_points_data, raw_lookup, Dict.lookup.
    unfold raw_get in R. rewrite R. cbn [bind iter].
    rewrite (mapM_float_first_error good rest bad G B). reflexivity. }
  split; [exact E|].
  intros fd fd' C Rd A. unfold main. rewrite C. cbn [bind]. rewrite Rd. cbn [bind].
  destruct (parse_atoms_data raw) as [atoms|e]; [|discriminate A].
  cbn [bind]. rewrite E. reflexivity.
Qed.

End Lookups.

Lemma atom_mass_from_table_witness :
  exists d a,
    parse_atoms_data (FO := Dec.ops)
      [(Some "[Atoms] Angs", Some ["H 1 1 0.0 0.0 0.0"; "He 2 -1 0.0 0.0 1.0"])]
      = Ok d /\
    Dict.get String.eqb d "atom_1" = Some a /\
    sort a = 1%Z /\ symbol a = "He" /\
    nth_error [(1, 0)%Z; (1008, -3)%Z; (4002602, -6)%Z] 2 = Some (mass a).
Proof.
  refine (proj2 (@atom_mass_from_table Dec.ops
           [(Some "[Atoms] Angs", Some ["H 1 1 0.0 0.0 0.0"; "He 2 -1 0.0 0.0 1.0"])]
           false ["H 1 1 0.0 0.0 0.0"] [] "He 2 -1 0.0 0.0 1.0"
           [ @Build_atom_fields Dec.t "H" 1 1
               (0, -1)%Z (0, -1)%Z (0, -1)%Z (1008, -3)%Z ]
           [] "He" 2 (-1) (0, -1)%Z (0, -1)%Z (10, -1)%Z _ _ _) _ _ _).
  - split; reflexivity.
  - constructor; [split; reflexivity | constructor].
  - reflexivity.
  - simpl. lia.
  - constructor.
  - intros q [].
Defined.

Lemma frequency_error_comes_first_witness :
  parse_k_points_data (FO := Dec.ops)
    [(Some "[FREQ]", Some ["4500.0"; "n/a"; "3000.0"])] = Err ValueError.
Proof.
  refine (proj1 (@frequency_error_comes_first Dec.ops
                   [(Some "[FREQ]", Some ["4500.0"; "n/a"; "3000.0"])]
                   ["4500.0"] ["3000.0"] "n/a" _ _ _)).
  - reflexivity.
  - constructor; [discriminate | constructor].
  - reflexivity.
Defined.
